(** * Replay buffers and trainer flow control of Soft-Actor-Critic

    A shallow embedding of [common/buffer.py] ([ReplayBuffer],
    [TrajectoryReplayBuffer]) and of the update/sample ratio control in
    [sac/main.py] ([train_loop]), with the properties of the specification
    stated and settled over it.

    Conventions.
    - A Python [tuple] or [list] is a Rocq [list]; [len], indices, sizes and
      the write cursor are natural numbers (Python integers that the code
      only ever counts up from zero).
    - A method that mutates [self] and may raise is a computation in the
      monad [M] below: it maps the object state to either a normal outcome
      or a raised exception, in both cases together with the state the
      object is left in (Python mutates in place, so what was written before
      a [raise] stays written).
    - The bodies of [push] and [extend] run under [with self.lock]; one call
      is one atomic transition of the buffer state.
    - The random number generators are not modelled as distributions: a
      sampling method takes the values the generator returned as an explicit
      argument, and a draw outside the range the generator can produce is
      reported as [BadDraw] (no execution of the program corresponds to it).
    - A Python [float] is a 64-bit IEEE 754 value, a [spec_float] of the
      Standard Library in the format of precision 53 and maximal exponent
      1024; its division rounds to nearest, ties to even, and its
      comparisons are exact. *)

From Stdlib Require Import QArith.
From Stdlib Require Import SpecFloat.
From stdpp Require Import base list strings.

Open Scope nat_scope.

(** ** Exceptions and the state-and-exception monad *)

Inductive exn : Type :=
  | TypeError (msg : string)
  | IndexError
  | ValueError
  | ZeroDivisionError
  | OverflowError.

Inductive outcome (S A : Type) : Type :=
  | Ok (a : A) (s : S)
  | Raised (e : exn) (s : S).
Arguments Ok {S A} a s.
Arguments Raised {S A} e s.

Definition state_of {S A} (o : outcome S A) : S :=
  match o with Ok _ s => s | Raised _ s => s end.

Definition is_ok {S A} (o : outcome S A) : bool :=
  match o with Ok _ _ => true | Raised _ _ => false end.

Definition M (S A : Type) : Type := S → outcome S A.

Definition ret {S A} (a : A) : M S A := λ s, Ok a s.
Definition raise {S A} (e : exn) : M S A := λ s, Raised e s.
Definition bind {S A B} (k : A → M S B) (m : M S A) : M S B :=
  λ s, match m s with
       | Ok a s' => k a s'
       | Raised e s' => Raised e s'
       end.
Definition gets {S A} (f : S → A) : M S A := λ s, Ok (f s) s.
Definition modify {S} (f : S → S) : M S unit := λ s, Ok tt (f s).

(** The notations [x ← m; k] and [m;; k] sequence two computations. *)
#[export] Instance M_ret {S} : MRet (M S) := λ A, @ret S A.
#[export] Instance M_bind {S} : MBind (M S) := λ A B, @bind S A B.

(** [for x in xs: body x] *)
Fixpoint for_each {S A} (xs : list A) (body : A → M S unit) : M S unit :=
  match xs with
  | [] => ret tt
  | x :: rest => body x;; for_each rest body
  end.

(** ** Capacities: a natural number or [np.inf] *)

Inductive capacity_t : Type :=
  | Finite (c : nat)
  | Inf.

(** [capacity or np.inf]: [None] and [0] are falsy. *)
Definition capacity_or_inf (capacity : option nat) : capacity_t :=
  match capacity with
  | None => Inf
  | Some 0 => Inf
  | Some c => Finite c
  end.

(** [n < capacity] and [n <= capacity] *)
Definition lt_capacity (n : nat) (cap : capacity_t) : bool :=
  match cap with
  | Finite c => n <? c
  | Inf => true
  end.

Definition le_capacity (n : nat) (cap : capacity_t) : bool :=
  match cap with
  | Finite c => n <=? c
  | Inf => true
  end.

(** The proposition [n ≤ capacity]. *)
Definition within_capacity (n : nat) (cap : capacity_t) : Prop :=
  match cap with
  | Finite c => n ≤ c
  | Inf => True
  end.

(** A Python-callable [initializer] ([list], a manager's [list]) builds a
    container for any element type. *)
Definition initializer_t : Type := ∀ A : Type, unit → list A.

(** The builtin [list]. *)
Definition py_list : initializer_t := λ A _, [].

(** ** Outcomes of a sampling call, and NumPy helpers *)

(** What a call that consumes random draws does on the draws it is given:
    it returns, it raises, it is still running when the draws are used up
    ([Pending]), or the draws are not values the generator can return. *)
Inductive run (A : Type) : Type :=
  | Returns (a : A)
  | Raises (e : exn)
  | Pending
  | BadDraw.
Arguments Returns {A} a.
Arguments Raises {A} e.
Arguments Pending {A}.
Arguments BadDraw {A}.

(** [map f xs] for an [f] that may raise: stops at the first exception. *)
Fixpoint map_exn {A B} (f : A → exn + B) (xs : list A) : exn + list B :=
  match xs with
  | [] => inr []
  | x :: rest =>
      match f x with
      | inl e => inl e
      | inr y =>
          match map_exn f rest with
          | inl e => inl e
          | inr ys => inr (y :: ys)
          end
      end
  end.

(** [zip( *batch )]: the i-th result collects the i-th component of every
    element of [batch], up to the shortest element; no element, no result. *)
Fixpoint zip_star {A} (batch : list (list A)) : list (list A) :=
  match batch with
  | [] => []
  | [x] => map (λ f, [f]) x
  | x :: rest => zip_with cons x (zip_star rest)
  end.

(** [np.stack(arrays)]: a new leading axis over [arrays], which must be
    non-empty and of one shape. *)
Definition np_stack {A} (shape : A → list nat) (arrays : list A) : exn + list A :=
  match arrays with
  | [] => inl ValueError
  | a :: rest =>
      if forallb (λ b, bool_decide (shape b = shape a)) rest
      then inr arrays
      else inl ValueError
  end.

(** [np.random.randint(high, size=n)] returns [n] integers of [[0, high)]. *)
Definition randint_ok (high n : nat) (draws : list nat) : bool :=
  (length draws =? n) && forallb (λ i, i <? high) draws.

(** [a[lo:lo + width]]: a slice stops at the end of the array. *)
Definition slice {A} (a : list A) (lo width : nat) : list A :=
  take width (drop lo a).

(** [tensor.transpose(0, 1)] of a stacked tensor: entry [j] of the result
    lists entry [j] of each row, for [j] below the width of the rows. *)
Definition transpose01 {A} (m : list (list A)) : list (list A) :=
  match m with
  | [] => []
  | r :: _ => map (λ j, omap (λ r' : list A, r' !! j) m) (seq 0 (length r))
  end.

(** Binding the keywords of a call to the parameters of the callee: a
    keyword that names no parameter raises [TypeError] before the body of
    the callee runs. *)
Definition unexpected_keyword (params keywords : list string) : option string :=
  head (filter (λ k, k ∉ params) keywords).

Definition call_with_keywords {A} (fname : string) (params keywords : list string)
    (body : A) : exn + A :=
  match unexpected_keyword params keywords with
  | Some k =>
      inl (TypeError (fname ++ "() got an unexpected keyword argument '" ++ k ++ "'"))
  | None => inr body
  end.

(** What a constructor call yields: the object, or an exception together
    with the names of the attributes of [self] assigned before it. *)
Inductive constructed (S : Type) : Type :=
  | Constructed (self : S)
  | InitRaised (e : exn) (assigned : list string).
Arguments Constructed {S} self.
Arguments InitRaised {S} e assigned.

(** ** Floats *)


(** The 64-bit float [0.1], that is [7205759403792794 * 2 ** -56]. *)
Definition float_0_1 : spec_float := S754_finite false 7205759403792794 (-56).

(** The conversion of one 64-bit float by [torch.FloatTensor]: the nearest
    32-bit float (precision 24, maximal exponent 128; ties to even, an
    infinity when out of range), written again as a 64-bit float so that
    values can be compared. *)
Definition to_float32 (x : spec_float) : spec_float :=
  match x with
  | S754_finite s m e =>
      match binary_round 24 128 s m e with
      | S754_finite s' m' e' => binary_round 53 1024 s' m' e'
      | other => other
      end
  | _ => x
  end.

(** [torch.FloatTensor] of a stack of one-dimensional arrays of 64-bit
    floats. *)
Definition FloatTensor_of_float64 (stacked : list (list spec_float))
    : list (list spec_float) :=
  map (map to_float32) stacked.

(** ** ReplayBuffer *)

Module ReplayBuffer.

Section WithField.
(** [F] is one field of an item (a NumPy array); an item is the tuple of its
    fields. [shape] gives an array's shape, [FloatTensor] is the conversion
    [torch.FloatTensor] of a stacked array. *)
Context {F tensor : Type}.
Variable shape : F → list nat.
Variable FloatTensor : list F → tensor.

Record t : Type := mk {
  capacity : capacity_t;
  buffer : list (list F);
  (** the integer held by the shared cell [self.buffer_offset] *)
  buffer_offset : nat
}.

Definition set_buffer (b : list (list F)) (self : t) : t :=
  mk (capacity self) b (buffer_offset self).

(** [def __init__(self, capacity=None, initializer=list, Value=mp.Value,
    Lock=mp.Lock)]: the names a call may pass by keyword. *)
Definition init_params : list string :=
  ["capacity"; "initializer"; "Value"; "Lock"]%string.

(** The body of [__init__]: [Value('i', value=0)] is a cell holding 0. *)
Definition __init__ (capacity : option nat) (initializer : initializer_t) : t :=
  {| capacity := capacity_or_inf capacity;
     buffer := initializer (list F) tt;
     buffer_offset := 0 |}.

(** the property [size]: [len(self.buffer)] *)
Definition size (self : t) : nat := length (buffer self).

(** the property [offset] and its setter *)
Definition offset (self : t) : nat := buffer_offset self.

Definition set_offset (value : nat) : M t unit :=
  modify (λ self, mk (capacity self) (buffer self) value).

(** [self.buffer.append(item)] *)
Definition buffer_append (item : list F) : M t unit :=
  modify (λ self, set_buffer (buffer self ++ [item]) self).

(** [self.buffer[i] = item]: an index past the end raises [IndexError] *)
Definition buffer_setitem (i : nat) (item : list F) : M t unit :=
  λ self,
    if decide (i < length (buffer self))
    then Ok tt (set_buffer (<[i := item]> (buffer self)) self)
    else Raised IndexError self.

(** [self.offset %= c]: [%] by zero raises *)
Definition offset_imod (c : nat) : M t unit :=
  o ← gets offset;
  if decide (c = 0) then raise ZeroDivisionError
  else set_offset (o `mod` c).

(** [def push(self, *args)] *)
Definition push (args : list F) : M t unit :=
  let item := args in
  sz ← gets size;
  cap ← gets capacity;
  (if lt_capacity sz cap
   then buffer_append item
   else o ← gets offset; buffer_setitem o item);;
  o ← gets offset;
  set_offset (o + 1);;
  match cap with
  | Inf => ret tt
  | Finite c => offset_imod c
  end.

(** [def extend(self, trajectory)]: the loop body is written out in the
    source, it does not call [push]. *)
Definition extend (trajectory : list (list F)) : M t unit :=
  for_each trajectory (λ items,
    sz ← gets size;
    cap ← gets capacity;
    (if lt_capacity sz cap
     then buffer_append items
     else o ← gets offset; buffer_setitem o items);;
    o ← gets offset;
    set_offset (o + 1);;
    match cap with
    | Inf => ret tt
    | Finite c => offset_imod c
    end).

(** [push] called on each element of [items] in turn; a call that raises
    ends the sequence. *)
Definition push_each (items : list (list F)) : M t unit :=
  for_each items push.

(** [def sample(self, batch_size)], on the indices [draws] returned by
    [np.random.randint(self.size, size=batch_size)], which raises
    [ValueError] when [self.size] is 0. *)
Definition sample (draws : list nat) (batch_size : nat) (self : t) : run (list tensor) :=
  if decide (size self = 0) then Raises ValueError
  else if negb (randint_ok (size self) batch_size draws) then BadDraw
  else
    match map_exn (λ i, from_option inr (inl IndexError) (buffer self !! i)) draws with
    | inl e => Raises e
    | inr batch =>
        match map_exn (np_stack shape) (zip_star batch) with
        | inl e => Raises e
        | inr stacked => Returns (map FloatTensor stacked)
        end
    end.

(** The mutating calls a client can make. *)
Inductive call : Type :=
  | Push (args : list F)
  | Extend (trajectory : list (list F)).

Definition do_call (c : call) : M t unit :=
  match c with
  | Push args => push args
  | Extend trajectory => extend trajectory
  end.

(** The state after a sequence of calls; a caller may catch an exception
    and go on, so the state a raising call leaves behind is kept. *)
Definition after_calls (calls : list call) (self : t) : t :=
  foldl (λ s c, state_of (do_call c s)) self calls.

(** [def __len__(self)] *)
Definition __len__ (self : t) : nat := size self.

(** A sequence of calls made one after the other; the first call that
    raises ends it. *)
Definition do_calls (calls : list call) : M t unit :=
  for_each calls do_call.

(** The items a call hands to the buffer, in order. *)
Definition call_items (c : call) : list (list F) :=
  match c with
  | Push args => [args]
  | Extend trajectory => trajectory
  end.

End WithField.
Arguments t : clear implicits.

End ReplayBuffer.

(** ** TrajectoryReplayBuffer *)

Module TrajectoryReplayBuffer.

Section WithRow.
(** [row] is one time step of one array of a trajectory (one row of an
    observation array, one entry of the hidden-state sequence); an array is
    the list of its rows, a trajectory the tuple of its arrays.
    [float32] is the element conversion of [torch.FloatTensor].
    [LSTMHidden] comes from [common/network_base.py], which is not among the
    sources, so its operations are parameters: [unsqueeze0] stands for
    [.unsqueeze(dim=0)] on one hidden-state entry and [LSTMHidden_cat] for
    [LSTMHidden.cat(hiddens=hiddens, dim=1)]. *)
Context {row trow hid hiddens_t : Type}.
Variable float32 : row → trow.
Variable unsqueeze0 : row → hid.
Variable LSTMHidden_cat : list hid → hiddens_t.

(** [class TrajectoryReplayBuffer(ReplayBuffer)]: the inherited state, with
    arrays as fields, and [self.lengths]. *)
Record t : Type := mk {
  base : ReplayBuffer.t (list row);
  lengths : list nat
}.

(** An inherited operation acts on the inherited part of the state. *)
Definition inherited {A} (m : M (ReplayBuffer.t (list row)) A) : M t A :=
  λ self,
    match m (base self) with
    | Ok a b => Ok a (mk b (lengths self))
    | Raised e b => Raised e (mk b (lengths self))
    end.

Definition capacity (self : t) : capacity_t := ReplayBuffer.capacity (base self).
Definition buffer (self : t) : list (list (list row)) := ReplayBuffer.buffer (base self).
Definition offset (self : t) : nat := ReplayBuffer.offset (base self).

(** The state of an empty trajectory buffer of the given capacity: what the
    body of the constructor sets up with [initializer=list]. *)
Definition empty (capacity : option nat) : t :=
  {| base := ReplayBuffer.__init__ capacity py_list; lengths := py_list nat tt |}.

(** [def __init__(self, capacity=None, initializer=list, lock=mp.Lock())]:
    [super().__init__(capacity=capacity, initializer=initializer, lock=lock)]
    and then [self.lengths = initializer()]. *)
Definition __init__ (capacity : option nat) (initializer : initializer_t) (lock : unit)
    : constructed t :=
  match call_with_keywords "__init__" ReplayBuffer.init_params
          ["capacity"; "initializer"; "lock"]%string
          (ReplayBuffer.__init__ capacity initializer) with
  | inl e => InitRaised e []
  | inr b => Constructed {| base := b; lengths := initializer nat tt |}
  end.

(** the property [size]: [sum(self.lengths)] *)
Definition size (self : t) : nat := sum_list (lengths self).

Definition lengths_append (length : nat) : M t unit :=
  modify (λ self, mk (base self) (lengths self ++ [length])).

(** [self.lengths[i] = length] *)
Definition lengths_setitem (i length : nat) : M t unit :=
  λ self,
    if decide (i < List.length (lengths self))
    then Ok tt (mk (base self) (<[i := length]> (lengths self)))
    else Raised IndexError self.

(** [a % b] *)
Definition py_mod (a b : nat) : M t nat :=
  if decide (b = 0) then raise ZeroDivisionError else mret (a `mod` b).

(** [def push(self, *args)] *)
Definition push (args : list (list row)) : M t unit :=
  match args with
  | [] => raise IndexError
  | first :: _ =>
      let length := List.length first in
      sz ← gets size;
      cap ← gets capacity;
      if le_capacity (sz + length) cap
      then
        inherited (ReplayBuffer.buffer_append args);;
        lengths_append length;;
        o ← gets offset;
        inherited (ReplayBuffer.set_offset (o + 1))
      else
        o ← gets offset;
        inherited (ReplayBuffer.buffer_setitem o args);;
        lengths_setitem o length;;
        n ← gets (λ self, List.length (buffer self));
        o' ← py_mod (o + 1) n;
        inherited (ReplayBuffer.set_offset o')
  end.

(** [extend] is not overridden: the subclass runs [ReplayBuffer.extend], in
    which [self.size] is the overriding property above and the slots are
    appended or overwritten without any change to [self.lengths]. *)
Definition extend (trajectory : list (list (list row))) : M t unit :=
  for_each trajectory (λ items,
    sz ← gets size;
    cap ← gets capacity;
    (if lt_capacity sz cap
     then inherited (ReplayBuffer.buffer_append items)
     else o ← gets offset; inherited (ReplayBuffer.buffer_setitem o items));;
    o ← gets offset;
    inherited (ReplayBuffer.set_offset (o + 1));;
    match cap with
    | Inf => mret tt
    | Finite c => inherited (ReplayBuffer.offset_imod c)
    end).

(** The mutating calls a client can make on the subclass. *)
Inductive call : Type :=
  | Push (args : list (list row))
  | Extend (trajectory : list (list (list row))).

Definition do_call (c : call) : M t unit :=
  match c with
  | Push args => push args
  | Extend trajectory => extend trajectory
  end.

(** The state after a sequence of calls, kept also when one raises. *)
Definition after_calls (calls : list call) (self : t) : t :=
  foldl (λ s c, state_of (do_call c s)) self calls.

(** The state after a sequence of [push] calls, kept also when one raises. *)
Definition after_pushes (pushes : list (list (list row))) (self : t) : t :=
  foldl (λ s args, state_of (push args s)) self pushes.

(** [push] called on each trajectory in turn; a call that raises ends the
    sequence. *)
Definition push_each (pushes : list (list (list row))) : M t unit :=
  for_each pushes push.

(** [np.random.choice(len(weights), p=weights)] with [weights = lengths /
    lengths.sum()]: no entry, or a zero sum (weights that are not numbers),
    raises [ValueError]; otherwise the result is an index of positive
    weight. *)
Definition choice_ok (lengths : list nat) (index : nat) : bool :=
  match lengths !! index with
  | Some l => 0 <? l
  | None => false
  end.

(** What one sub-sequence draw adds to [batch] and to [hiddens]. *)
Definition drawn : Type := (list (list row) * hid)%type.

(** The loop [while True: ...] of one draw, on the values [tape] that
    [np.random.choice] and [random.randint] return in turn; yields the
    entry it appends and the unused rest of [tape]. *)
Fixpoint retry_loop (self : t) (step_size : nat) (tape : list nat)
    : run (drawn * list nat) :=
  if decide (sum_list (lengths self) = 0) then Raises ValueError
  else
    match tape with
    | [] => Pending
    | index :: tape1 =>
        if negb (choice_ok (lengths self) index) then BadDraw
        else
          match buffer self !! index with
          | None => Raises IndexError
          | Some [observation; action; reward; next_observation; done; hidden] =>
              if decide (step_size ≤ List.length observation)
              then
                (* [offset = random.randint(0, len(observation) - step_size)] *)
                match tape1 with
                | [] => Pending
                | offset :: tape2 =>
                    if decide (offset ≤ List.length observation - step_size)
                    then
                      match hidden !! offset with
                      | None => Raises IndexError
                      | Some h =>
                          Returns (([slice observation offset step_size;
                                     slice action offset step_size;
                                     slice reward offset step_size;
                                     slice next_observation offset step_size;
                                     slice done offset step_size],
                                    unsqueeze0 h), tape2)
                      end
                    else BadDraw
                end
              else retry_loop self step_size tape1
          | Some _ => Raises ValueError
          end
    end.

(** [for i in range(batch_size): ...] *)
Fixpoint draw_batch (self : t) (step_size : nat) (batch_size : nat) (tape : list nat)
    : run (list drawn) :=
  match batch_size with
  | 0 => Returns []
  | S n =>
      match retry_loop self step_size tape with
      | Returns (d, tape') =>
          match draw_batch self step_size n tape' with
          | Returns ds => Returns (d :: ds)
          | r => r
          end
      | Raises e => Raises e
      | Pending => Pending
      | BadDraw => BadDraw
      end
  end.

(** The tuple [sample] returns. *)
Record sampled : Type := mk_sampled {
  observation : list (list trow);
  action : list (list trow);
  reward : list (list trow);
  next_observation : list (list trow);
  done : list (list trow);
  hidden : hiddens_t
}.

(** [torch.FloatTensor] of a stacked array *)
Definition FloatTensor (a : list (list row)) : list (list trow) :=
  map (map float32) a.

(** [def sample(self, batch_size, step_size)] *)
Definition sample (tape : list nat) (batch_size step_size : nat) (self : t) : run sampled :=
  match draw_batch self step_size batch_size tape with
  | Returns ds =>
      let batch := map fst ds in
      let hiddens := map snd ds in
      match map_exn (np_stack (λ a : list row, [List.length a])) (zip_star batch) with
      | inl e => Raises e
      | inr stacked =>
          match map (λ a, transpose01 (FloatTensor a)) stacked with
          | [o; a; r; n; d] => Returns (mk_sampled o a r n d (LSTMHidden_cat hiddens))
          | _ => Raises ValueError
          end
      end
  | Raises e => Raises e
  | Pending => Pending
  | BadDraw => BadDraw
  end.

End WithRow.
Arguments t : clear implicits.
Arguments sampled : clear implicits.

End TrajectoryReplayBuffer.

(** ** The update/sample ratio control of [train_loop] *)

Module TrainLoop.









(** How the call [train_loop(model, config, update_kwargs)] inside the [try]
    of [train] ends: normally, by [KeyboardInterrupt], or by any other
    exception. *)
Inductive loop_end : Type :=
  | Completed
  | KeyboardInterrupt
  | OtherException (e : exn).

(** The calls [train] makes on the sampler processes, by position in
    [samplers]. *)
Inductive sampler_call : Type :=
  | Terminate (i : nat)
  | Join (i : nat).

(** [for sampler in samplers: if sampler.is_alive(): sampler.terminate();
    sampler.join()], where [alive] lists the answers of [is_alive()] and [i]
    is the position of the first sampler of the list. *)
Fixpoint stop_samplers (i : nat) (alive : list bool) : list sampler_call :=
  match alive with
  | [] => []
  | a :: rest =>
      (if a then [Terminate i] else []) ++ Join i :: stop_samplers (S i) rest
  end.

(** The [try ... except KeyboardInterrupt: pass ... except Exception: raise
    ... finally: ...] statement of [train]: the exception it propagates, if
    any, and the calls made on the samplers. *)
Definition train_try (how : loop_end) (alive : list bool)
    : option exn * list sampler_call :=
  (match how with
   | Completed => None
   | KeyboardInterrupt => None
   | OtherException e => Some e
   end,
   stop_samplers 0 alive).

End TrainLoop.

(** ** Vocabulary of the properties *)

(** [len(args[0])], and 0 for a call without arguments, which stores
    nothing. *)
Definition trajectory_length {row : Type} (args : list (list row)) : nat :=
  match args with
  | [] => 0
  | first :: _ => length first
  end.

(** The write cursor equals the slot count and the size is within the
    capacity: the states a trajectory buffer reaches from the empty one. *)
Definition cursor_at_end {row : Type} (self : TrajectoryReplayBuffer.t row) : Prop :=
  TrajectoryReplayBuffer.offset self = length (TrajectoryReplayBuffer.buffer self) ∧
  within_capacity (TrajectoryReplayBuffer.size self)
                  (TrajectoryReplayBuffer.capacity self).

(** A trajectory of [n] steps: six arrays (observation, action, reward,
    next observation, done flag, hidden state) of [n] rows each. *)
Definition uniform_trajectory {row : Type} (n : nat) (r : row) : list (list row) :=
  replicate 6 (replicate n r).

(** A slot that holds a trajectory of [L] steps: six arrays of [L] rows. *)
Definition trajectory_slot {row : Type} (slot : list (list row)) (L : nat) : Prop :=
  length slot = 6 ∧ Forall (λ a, length a = L) slot.

(** The data model of a trajectory buffer: every slot holds a trajectory,
    and [lengths] lists the lengths of the trajectories slot by slot. *)
Definition stores_trajectories {row : Type} (self : TrajectoryReplayBuffer.t row) : Prop :=
  Forall2 trajectory_slot (TrajectoryReplayBuffer.buffer self)
          (TrajectoryReplayBuffer.lengths self).

(** Row [t] of array [k] of the trajectory in slot [index]. *)
Definition array_row {row : Type} (self : TrajectoryReplayBuffer.t row)
    (index k t : nat) : option row :=
  match TrajectoryReplayBuffer.buffer self !! index with
  | Some slot =>
      match slot !! k with
      | Some a => a !! t
      | None => None
      end
  | None => None
  end.

(** Entry [[t][b]] of a tensor whose two leading axes are lists. *)
Definition entry {A : Type} (m : list (list A)) (t b : nat) : option A :=
  match m !! t with
  | Some at_t => at_t !! b
  | None => None
  end.

(** The five per-field tensors of a sample, in the order of the tuple. *)
Definition fields {trow hiddens_t : Type}
    (r : TrajectoryReplayBuffer.sampled trow hiddens_t) : list (list (list trow)) :=
  [TrajectoryReplayBuffer.observation r; TrajectoryReplayBuffer.action r;
   TrajectoryReplayBuffer.reward r; TrajectoryReplayBuffer.next_observation r;
   TrajectoryReplayBuffer.done r].

(** What the draw of slot [d.1] at start offset [d.2] appends: the five
    field sub-sequences and the hidden-state entry at the start offset. *)
Definition drawn_at {row hid : Type} (unsqueeze0 : row → hid)
    (self : TrajectoryReplayBuffer.t row) (step_size : nat)
    (d : nat * nat) (x : list (list row) * hid) : Prop :=
  ∃ slot L h,
    TrajectoryReplayBuffer.buffer self !! d.1 = Some slot ∧
    TrajectoryReplayBuffer.lengths self !! d.1 = Some L ∧
    trajectory_slot slot L ∧
    step_size ≤ L ∧
    d.2 ≤ L - step_size ∧
    x.1 = map (λ a, slice a d.2 step_size) (take 5 slot) ∧
    array_row self d.1 5 d.2 = Some h ∧
    x.2 = unsqueeze0 h.

(** A buffer of capacity 10 that stores one trajectory of 3 steps. *)
Definition example_buffer : TrajectoryReplayBuffer.t nat :=
  TrajectoryReplayBuffer.after_pushes
    [[[1; 2; 3]; [4; 5; 6]; [7; 8; 9]; [10; 11; 12]; [13; 14; 15]; [16; 17; 18]]]
    (TrajectoryReplayBuffer.empty (Some 10)).

(** A trajectory buffer of capacity 10 on which two trajectories of 4
    steps were pushed and [n] one-array items were then added by the
    inherited [extend]. *)
Definition extended_buffer (n : nat) : TrajectoryReplayBuffer.t nat :=
  TrajectoryReplayBuffer.after_calls
    [TrajectoryReplayBuffer.Push (uniform_trajectory 4 0);
     TrajectoryReplayBuffer.Push (uniform_trajectory 4 0);
     TrajectoryReplayBuffer.Extend (replicate n [[0]])]
    (TrajectoryReplayBuffer.empty (Some 10)).


(** The positions a list of sampler calls joins, and the positions it
    terminates, in call order. *)
Definition joined (calls : list TrainLoop.sampler_call) : list nat :=
  omap (λ c, match c with TrainLoop.Join i => Some i | _ => None end) calls.

Definition terminated (calls : list TrainLoop.sampler_call) : list nat :=
  omap (λ c, match c with TrainLoop.Terminate i => Some i | _ => None end) calls.

(** Every slot the generator can draw (a positive entry of [lengths]) holds
    a tuple of six arrays, as [sample] unpacks it, whose first array
    (the observation) has fewer than [step_size] rows. *)
Definition only_short_trajectories {row : Type} (self : TrajectoryReplayBuffer.t row)
    (step_size : nat) : Prop :=
  ∀ i L,
    TrajectoryReplayBuffer.lengths self !! i = Some L → 0 < L →
    ∃ o a r n d h,
      TrajectoryReplayBuffer.buffer self !! i = Some [o; a; r; n; d; h] ∧
      length o < step_size.

(** A [ReplayBuffer.sample] whose fields are one-dimensional arrays of
    64-bit floats. *)
Definition sample_float64 (draws : list nat) (batch_size : nat)
    (self : ReplayBuffer.t (list spec_float)) : run (list (list (list spec_float))) :=
  ReplayBuffer.sample (λ a : list spec_float, [length a]) FloatTensor_of_float64
    draws batch_size self.

(** * Properties *)

(** Unfolds the monad operations in the goal. *)
Ltac run_M :=
  unfold mbind, mret, M_bind, M_ret, bind, ret, raise, gets, modify in *;
  simpl in *.

(** ** Construction *)

(** C1: constructing a [TrajectoryReplayBuffer] raises [TypeError] whatever
    the capacity, initializer and lock arguments are, and before any
    attribute of the object is assigned: the keyword [lock] it forwards is
    not a parameter of [ReplayBuffer.__init__]. *)
Theorem trajectory_buffer_init_raises {row : Type}
    (capacity : option nat) (initializer : initializer_t) (lock : unit) :
  ("lock"%string ∉ ReplayBuffer.init_params) ∧
  TrajectoryReplayBuffer.__init__ (row := row) capacity initializer lock
  = InitRaised
      (TypeError "__init__() got an unexpected keyword argument 'lock'") [].
Proof.
  split; [|reflexivity].
  unfold ReplayBuffer.init_params. rewrite !elem_of_cons, elem_of_nil.
  intros [?|[?|[?|[?|[]]]]]; discriminate.
Qed.

(** ** ReplayBuffer: push and extend *)

Section ReplayBufferFacts.
Context {F : Type}.
Implicit Types (self : ReplayBuffer.t F) (item : list F) (items : list (list F)).

Lemma rb_push_append self item :
  lt_capacity (ReplayBuffer.size self) (ReplayBuffer.capacity self) = true →
  ∃ o, ReplayBuffer.push item self
       = Ok tt (ReplayBuffer.mk (ReplayBuffer.capacity self)
                  (ReplayBuffer.buffer self ++ [item]) o).
Proof.
  destruct self as [cap buf off]. unfold ReplayBuffer.size. simpl.
  intros Hlt. unfold ReplayBuffer.push. run_M.
  unfold ReplayBuffer.size. simpl. rewrite Hlt. simpl.
  destruct cap as [c|]; simpl; [|by eauto].
  unfold ReplayBuffer.offset_imod. run_M.
  destruct (decide (c = 0)) as [->|Hc0]; simpl; [|by eauto].
  simpl in Hlt. apply Nat.ltb_lt in Hlt. lia.
Qed.

Lemma rb_push_state self item :
  ReplayBuffer.capacity (state_of (ReplayBuffer.push item self))
  = ReplayBuffer.capacity self ∧
  (ReplayBuffer.size (state_of (ReplayBuffer.push item self)) = ReplayBuffer.size self ∨
   (lt_capacity (ReplayBuffer.size self) (ReplayBuffer.capacity self) = true ∧
    ReplayBuffer.size (state_of (ReplayBuffer.push item self))
    = S (ReplayBuffer.size self))).
Proof.
  destruct (lt_capacity (ReplayBuffer.size self) (ReplayBuffer.capacity self)) eqn:Hlt.
  - destruct (rb_push_append self item Hlt) as [o ->]. simpl. split; [done|].
    right. split; [done|]. unfold ReplayBuffer.size. simpl.
    rewrite length_app. simpl. lia.
  - destruct self as [cap buf off]. unfold ReplayBuffer.size in *. simpl in *.
    unfold ReplayBuffer.push. run_M. unfold ReplayBuffer.size. simpl.
    rewrite Hlt. unfold ReplayBuffer.buffer_setitem. simpl.
    destruct (decide (off < length buf)) as [Ho|Ho]; simpl; [|by auto].
    destruct cap as [c|]; simpl.
    + unfold ReplayBuffer.offset_imod. run_M.
      destruct (decide (c = 0)); simpl; rewrite length_insert; auto.
    + rewrite length_insert; auto.
Qed.

Lemma rb_extend_unfold items self :
  ReplayBuffer.extend items self = ReplayBuffer.push_each items self.
Proof.
  unfold ReplayBuffer.extend, ReplayBuffer.push_each.
  revert self. induction items as [|item items IH]; intros self; [done|].
  simpl. unfold mbind, M_bind, bind.
  change (ReplayBuffer.push item self) with
    ((sz ← gets ReplayBuffer.size;
      cap ← gets ReplayBuffer.capacity;
      (if lt_capacity sz cap
       then ReplayBuffer.buffer_append item
       else o ← gets ReplayBuffer.offset; ReplayBuffer.buffer_setitem o item);;
      o ← gets ReplayBuffer.offset;
      ReplayBuffer.set_offset (o + 1);;
      match cap with
      | Inf => ret tt
      | Finite c => ReplayBuffer.offset_imod c
      end) self).
  unfold mbind, M_bind, bind.
  destruct (gets ReplayBuffer.size self); [|done].
  match goal with |- match ?x with _ => _ end = match ?y with _ => _ end =>
    change y with x; destruct x end; [apply IH|done].
Qed.

Lemma rb_push_each_capacity items self :
  ReplayBuffer.capacity (state_of (ReplayBuffer.push_each items self))
  = ReplayBuffer.capacity self.
Proof.
  unfold ReplayBuffer.push_each. revert self.
  induction items as [|item items IH]; intros self; [done|].
  simpl. unfold mbind, M_bind, bind.
  pose proof (rb_push_state self item) as [Hcap _].
  destruct (ReplayBuffer.push item self) as [[] s'|e s']; simpl in *; [|done].
  by rewrite IH.
Qed.

Lemma rb_push_each_within items self :
  within_capacity (ReplayBuffer.size self) (ReplayBuffer.capacity self) →
  within_capacity (ReplayBuffer.size (state_of (ReplayBuffer.push_each items self)))
                  (ReplayBuffer.capacity self).
Proof.
  unfold ReplayBuffer.push_each. revert self.
  induction items as [|item items IH]; intros self Hin; [done|].
  simpl. unfold mbind, M_bind, bind.
  pose proof (rb_push_state self item) as [Hcap Hsz].
  assert (within_capacity
            (ReplayBuffer.size (state_of (ReplayBuffer.push item self)))
            (ReplayBuffer.capacity self)) as Hin'.
  { destruct Hsz as [->|[Hlt ->]]; [done|].
    destruct (ReplayBuffer.capacity self); simpl in *; [|done].
    apply Nat.ltb_lt in Hlt. lia. }
  destruct (ReplayBuffer.push item self) as [[] s'|e s']; simpl in *; [|done].
  rewrite <- Hcap. apply IH. by rewrite Hcap.
Qed.

Lemma rb_call_within (c : ReplayBuffer.call) self :
  within_capacity (ReplayBuffer.size self) (ReplayBuffer.capacity self) →
  ReplayBuffer.capacity (state_of (ReplayBuffer.do_call c self))
  = ReplayBuffer.capacity self ∧
  within_capacity (ReplayBuffer.size (state_of (ReplayBuffer.do_call c self)))
                  (ReplayBuffer.capacity self).
Proof.
  intros Hin. destruct c as [args|trajectory]; simpl.
  - pose proof (rb_push_state self args) as [Hcap Hsz]. split; [done|].
    destruct Hsz as [->|[Hlt ->]]; [done|].
    destruct (ReplayBuffer.capacity self); simpl in *; [|done].
    apply Nat.ltb_lt in Hlt. lia.
  - rewrite rb_extend_unfold. split.
    + apply rb_push_each_capacity.
    + by apply rb_push_each_within.
Qed.

Lemma rb_after_calls_within (calls : list ReplayBuffer.call) self :
  within_capacity (ReplayBuffer.size self) (ReplayBuffer.capacity self) →
  ReplayBuffer.capacity (ReplayBuffer.after_calls calls self)
  = ReplayBuffer.capacity self ∧
  within_capacity (ReplayBuffer.size (ReplayBuffer.after_calls calls self))
                  (ReplayBuffer.capacity self).
Proof.
  unfold ReplayBuffer.after_calls. revert self.
  induction calls as [|c calls IH]; intros self Hin; [done|].
  simpl. destruct (rb_call_within c self Hin) as [Hcap Hin'].
  rewrite <- Hcap in Hin'. destruct (IH _ Hin') as [Hcap' Hin''].
  rewrite Hcap', Hcap in *. done.
Qed.

Lemma rb_push_each_fits items self :
  within_capacity (ReplayBuffer.size self + length items) (ReplayBuffer.capacity self) →
  ∃ o, ReplayBuffer.push_each items self
       = Ok tt (ReplayBuffer.mk (ReplayBuffer.capacity self)
                  (ReplayBuffer.buffer self ++ items) o).
Proof.
  unfold ReplayBuffer.push_each. revert self.
  induction items as [|item items IH]; intros self Hfit.
  - exists (ReplayBuffer.buffer_offset self). simpl. rewrite app_nil_r.
    by destruct self.
  - simpl in *. unfold mbind, M_bind, bind.
    assert (lt_capacity (ReplayBuffer.size self) (ReplayBuffer.capacity self) = true)
      as Hlt.
    { destruct (ReplayBuffer.capacity self); simpl in *; [|done].
      apply Nat.ltb_lt. lia. }
    destruct (rb_push_append self item Hlt) as [o ->].
    edestruct IH as [o' ->]; [|simpl; rewrite <- app_assoc; by eauto].
    unfold ReplayBuffer.size in *. simpl. rewrite length_app. simpl.
    destruct (ReplayBuffer.capacity self); simpl in *; [lia|done].
Qed.

End ReplayBufferFacts.

(** ** TrajectoryReplayBuffer: push *)

Section TrajectoryFacts.
Context {row : Type}.
Implicit Types (self : TrajectoryReplayBuffer.t row) (args : list (list row)).

Lemma trb_push_append self args :
  args ≠ [] →
  le_capacity (TrajectoryReplayBuffer.size self + trajectory_length args)
              (TrajectoryReplayBuffer.capacity self) = true →
  TrajectoryReplayBuffer.push args self
  = Ok tt (TrajectoryReplayBuffer.mk
             (ReplayBuffer.mk (TrajectoryReplayBuffer.capacity self)
                (TrajectoryReplayBuffer.buffer self ++ [args])
                (TrajectoryReplayBuffer.offset self + 1))
             (TrajectoryReplayBuffer.lengths self ++ [trajectory_length args])).
Proof.
  destruct args as [|first rest]; [done|]. intros _.
  destruct self as [[cap buf off] lens].
  unfold TrajectoryReplayBuffer.size, TrajectoryReplayBuffer.capacity,
    TrajectoryReplayBuffer.buffer, TrajectoryReplayBuffer.offset. simpl.
  intros Hle. unfold TrajectoryReplayBuffer.push. run_M.
  unfold TrajectoryReplayBuffer.size, TrajectoryReplayBuffer.capacity. simpl.
  by rewrite Hle.
Qed.

Lemma trb_push_at_end self args :
  TrajectoryReplayBuffer.offset self = length (TrajectoryReplayBuffer.buffer self) →
  le_capacity (TrajectoryReplayBuffer.size self + trajectory_length args)
              (TrajectoryReplayBuffer.capacity self) = false →
  TrajectoryReplayBuffer.push args self = Raised IndexError self.
Proof.
  destruct args as [|first rest]; [done|].
  destruct self as [[cap buf off] lens].
  unfold TrajectoryReplayBuffer.size, TrajectoryReplayBuffer.capacity,
    TrajectoryReplayBuffer.buffer, TrajectoryReplayBuffer.offset,
    ReplayBuffer.offset. simpl.
  intros -> Hle. unfold TrajectoryReplayBuffer.push. run_M.
  unfold TrajectoryReplayBuffer.size, TrajectoryReplayBuffer.capacity. simpl.
  rewrite Hle. unfold TrajectoryReplayBuffer.inherited, ReplayBuffer.buffer_setitem,
    TrajectoryReplayBuffer.offset, ReplayBuffer.offset.
  simpl. destruct (decide (length buf < length buf)); [lia|done].
Qed.

Lemma trb_push_cursor_at_end self args :
  cursor_at_end self →
  TrajectoryReplayBuffer.capacity (state_of (TrajectoryReplayBuffer.push args self))
  = TrajectoryReplayBuffer.capacity self ∧
  cursor_at_end (state_of (TrajectoryReplayBuffer.push args self)).
Proof.
  intros [Hoff Hin].
  destruct (decide (args = [])) as [->|Hne]; [by repeat split|].
  destruct (le_capacity (TrajectoryReplayBuffer.size self + trajectory_length args)
              (TrajectoryReplayBuffer.capacity self)) eqn:Hle.
  - rewrite trb_push_append by done. simpl. split; [done|].
    unfold cursor_at_end, TrajectoryReplayBuffer.size, TrajectoryReplayBuffer.capacity,
      TrajectoryReplayBuffer.buffer, TrajectoryReplayBuffer.offset,
      ReplayBuffer.offset in *. simpl.
    rewrite length_app, sum_list_with_app. simpl. split; [lia|].
    destruct (ReplayBuffer.capacity (TrajectoryReplayBuffer.base self));
      simpl in *; [|done].
    apply Nat.leb_le in Hle. lia.
  - rewrite trb_push_at_end by done. by repeat split.
Qed.

Lemma trb_after_pushes_cursor_at_end (pushes : list (list (list row))) self :
  cursor_at_end self →
  TrajectoryReplayBuffer.capacity (TrajectoryReplayBuffer.after_pushes pushes self)
  = TrajectoryReplayBuffer.capacity self ∧
  cursor_at_end (TrajectoryReplayBuffer.after_pushes pushes self).
Proof.
  unfold TrajectoryReplayBuffer.after_pushes. revert self.
  induction pushes as [|args pushes IH]; intros self Hinv; [done|].
  simpl. destruct (trb_push_cursor_at_end self args Hinv) as [Hcap Hinv'].
  destruct (IH _ Hinv') as [Hcap' Hinv'']. split; [congruence|done].
Qed.

Lemma trb_push_each_fits (pushes : list (list (list row))) self :
  Forall (λ args, args ≠ []) pushes →
  within_capacity
    (TrajectoryReplayBuffer.size self + sum_list (map trajectory_length pushes))
    (TrajectoryReplayBuffer.capacity self) →
  TrajectoryReplayBuffer.push_each pushes self
  = Ok tt (TrajectoryReplayBuffer.mk
             (ReplayBuffer.mk (TrajectoryReplayBuffer.capacity self)
                (TrajectoryReplayBuffer.buffer self ++ pushes)
                (TrajectoryReplayBuffer.offset self + length pushes))
             (TrajectoryReplayBuffer.lengths self ++ map trajectory_length pushes)).
Proof.
  unfold TrajectoryReplayBuffer.push_each. revert self.
  induction pushes as [|args pushes IH]; intros self Hne Hfit.
  - simpl. rewrite !app_nil_r, Nat.add_0_r. by destruct self as [[? ? ?] ?].
  - inversion Hne as [|? ? Hargs Hrest]; subst. simpl in *.
    unfold mbind, M_bind, bind.
    rewrite trb_push_append; [|done|].
    + rewrite IH; [|done|].
      * simpl. unfold TrajectoryReplayBuffer.capacity, TrajectoryReplayBuffer.buffer,
          TrajectoryReplayBuffer.offset, ReplayBuffer.offset. simpl.
        rewrite <- !app_assoc. simpl. do 3 f_equal. lia.
      * unfold TrajectoryReplayBuffer.size, TrajectoryReplayBuffer.capacity in *.
        simpl. rewrite sum_list_with_app. simpl.
        destruct (ReplayBuffer.capacity (TrajectoryReplayBuffer.base self));
          simpl in *; [lia|done].
    + destruct (TrajectoryReplayBuffer.capacity self); simpl in *; [|done].
      apply Nat.leb_le. lia.
Qed.

End TrajectoryFacts.

(** ** The claims on push, extend and size *)

(** C5: with capacity 3, pushing A, B, C, D into an empty [ReplayBuffer]
    leaves the slots [D, B, C] and the offset 1. *)
Theorem push_four_into_capacity_three {F : Type} (A B C D : list F) :
  ReplayBuffer.push_each [A; B; C; D] (ReplayBuffer.__init__ (Some 3) py_list)
  = Ok tt {| ReplayBuffer.capacity := Finite 3;
             ReplayBuffer.buffer := [D; B; C];
             ReplayBuffer.buffer_offset := 1 |}.
Proof. reflexivity. Qed.

(** C8: from every buffer state, [extend(items)] ends exactly as calling
    [push] on each item in order does: same slots, same offset, and the
    same exception if one is raised. *)
Theorem extend_is_push_each {F : Type} (self : ReplayBuffer.t F) (items : list (list F)) :
  ReplayBuffer.extend items self = ReplayBuffer.push_each items self.
Proof. apply rb_extend_unfold. Qed.

(** C3, as amended: with a finite capacity [S c], after any sequence of
    [push] and [extend] calls on an empty [ReplayBuffer] the number of
    occupied slots is at most the capacity, and after any sequence of
    [push] calls on an empty [TrajectoryReplayBuffer] the sum of the stored
    lengths is at most the capacity. *)
Theorem size_never_exceeds_capacity (c : nat) :
  (∀ (F : Type) (calls : list (@ReplayBuffer.call F)),
     ReplayBuffer.size
       (ReplayBuffer.after_calls calls (ReplayBuffer.__init__ (Some (S c)) py_list))
     ≤ S c) ∧
  (∀ (row : Type) (pushes : list (list (list row))),
     TrajectoryReplayBuffer.size
       (TrajectoryReplayBuffer.after_pushes pushes
          (TrajectoryReplayBuffer.empty (Some (S c))))
     ≤ S c).
Proof.
  split.
  - intros F calls.
    destruct (rb_after_calls_within calls
                (ReplayBuffer.__init__ (F := F) (Some (S c)) py_list)) as [_ H].
    + simpl. unfold ReplayBuffer.size. simpl. lia.
    + exact H.
  - intros row pushes.
    destruct (trb_after_pushes_cursor_at_end pushes
                (TrajectoryReplayBuffer.empty (row := row) (Some (S c))))
      as [Hcap [_ H]].
    + split; [done|]. cbv. lia.
    + rewrite Hcap in H. exact H.
Qed.

(** C3 as stated fails for the trajectory variant once [extend] is among
    the calls: with capacity 10, after pushing two trajectories of 4 steps
    and extending by 8 items (which fills slots and wraps the cursor to 0
    but leaves [lengths] alone), pushing a trajectory of 7 steps overwrites
    slot 0 and returns normally, with stored lengths [7, 4] and size 11. *)
Lemma trajectory_extend_then_push_exceeds_capacity :
  TrajectoryReplayBuffer.lengths
    (TrajectoryReplayBuffer.after_calls
       [TrajectoryReplayBuffer.Push (uniform_trajectory 4 0);
        TrajectoryReplayBuffer.Push (uniform_trajectory 4 0);
        TrajectoryReplayBuffer.Extend (replicate 8 [[0]]);
        TrajectoryReplayBuffer.Push (uniform_trajectory 7 0)]
       (TrajectoryReplayBuffer.empty (Some 10))) = [7; 4] ∧
  ¬ (TrajectoryReplayBuffer.size
       (TrajectoryReplayBuffer.after_calls
          [TrajectoryReplayBuffer.Push (uniform_trajectory 4 0);
           TrajectoryReplayBuffer.Push (uniform_trajectory 4 0);
           TrajectoryReplayBuffer.Extend (replicate 8 [[0]]);
           TrajectoryReplayBuffer.Push (uniform_trajectory 7 0)]
          (TrajectoryReplayBuffer.empty (Some 10))) ≤ 10).
Proof.
  split; [reflexivity|].
  intros H. vm_compute in H. lia.
Qed.

(** C9: from an empty buffer, a sequence of pushes that fits the capacity
    succeeds and leaves [size] equal to the number of pushes
    ([ReplayBuffer]) or to the sum of the lengths of the pushed
    trajectories ([TrajectoryReplayBuffer]). *)
Theorem size_after_pushes_that_fit :
  (∀ (F : Type) (capacity : option nat) (items : list (list F)),
     within_capacity (length items) (capacity_or_inf capacity) →
     ∃ s, ReplayBuffer.push_each items (ReplayBuffer.__init__ capacity py_list)
          = Ok tt s ∧
          ReplayBuffer.size s = length items) ∧
  (∀ (row : Type) (capacity : option nat) (pushes : list (list (list row))),
     Forall (λ args, args ≠ []) pushes →
     within_capacity (sum_list (map trajectory_length pushes))
                     (capacity_or_inf capacity) →
     ∃ s, TrajectoryReplayBuffer.push_each pushes
            (TrajectoryReplayBuffer.empty capacity) = Ok tt s ∧
          TrajectoryReplayBuffer.size s = sum_list (map trajectory_length pushes)).
Proof.
  split.
  - intros F capacity items Hfit.
    destruct (rb_push_each_fits items
                (ReplayBuffer.__init__ (F := F) capacity py_list) Hfit) as [o ->].
    eexists. split; [done|]. reflexivity.
  - intros row capacity pushes Hne Hfit.
    rewrite trb_push_each_fits by done.
    eexists. split; [done|]. reflexivity.
Qed.

(** The sequences of C9 at capacity 3 and 10. *)
Lemma size_after_pushes_that_fit_witness :
  (within_capacity (length [[1]; [2]]) (capacity_or_inf (Some 3)) ∧
   ∃ s, ReplayBuffer.push_each [[1]; [2]] (ReplayBuffer.__init__ (Some 3) py_list)
        = Ok tt s ∧
        ReplayBuffer.size s = 2) ∧
  (Forall (λ args : list (list nat), args ≠ [])
     [uniform_trajectory 4 0; uniform_trajectory 5 0] ∧
   within_capacity
     (sum_list (map trajectory_length [uniform_trajectory 4 0; uniform_trajectory 5 0]))
     (capacity_or_inf (Some 10)) ∧
   ∃ s, TrajectoryReplayBuffer.push_each
          [uniform_trajectory 4 0; uniform_trajectory 5 0]
          (TrajectoryReplayBuffer.empty (Some 10)) = Ok tt s ∧
        TrajectoryReplayBuffer.size s = 9).
Proof.
  assert (Forall (λ args : list (list nat), args ≠ [])
            [uniform_trajectory 4 0; uniform_trajectory 5 0]) as Hne.
  { repeat constructor; discriminate. }
  split; [split|split; [|split]].
  - simpl. lia.
  - apply (proj1 size_after_pushes_that_fit nat (Some 3) [[1]; [2]]). simpl. lia.
  - exact Hne.
  - simpl. lia.
  - apply (proj2 size_after_pushes_that_fit nat (Some 10)
             [uniform_trajectory 4 0; uniform_trajectory 5 0] Hne). simpl. lia.
Defined.

(** C2: with capacity 10, pushing trajectories of 4, 4 and 5 steps into an
    empty [TrajectoryReplayBuffer]: the third push raises [IndexError] at
    [self.buffer[self.offset] = ...], the offset being 2 with 2 slots, and
    the stored lengths stay [4, 4] with size 8. *)
Theorem third_trajectory_push_raises {row : Type} (r : row) :
  TrajectoryReplayBuffer.push_each
    [uniform_trajectory 4 r; uniform_trajectory 4 r; uniform_trajectory 5 r]
    (TrajectoryReplayBuffer.empty (Some 10))
  = Raised IndexError
      {| TrajectoryReplayBuffer.base :=
           {| ReplayBuffer.capacity := Finite 10;
              ReplayBuffer.buffer := [uniform_trajectory 4 r; uniform_trajectory 4 r];
              ReplayBuffer.buffer_offset := 2 |};
         TrajectoryReplayBuffer.lengths := [4; 4] |}.
Proof. reflexivity. Qed.

(** ** Sampling from a ReplayBuffer *)

Section ReplayBufferSample.
Context {F tensor : Type}.
Variable shape : F → list nat.
Variable FloatTensor : list F → tensor.

Lemma np_stack_singletons (item : list F) :
  map_exn (np_stack shape) (map (λ f, [f]) item) = inr (map (λ f, [f]) item).
Proof.
  induction item as [|f item IH]; [done|]. simpl. by rewrite IH.
Qed.

Lemma randint_one (draws : list nat) :
  randint_ok 1 1 draws = true → draws = [0].
Proof.
  unfold randint_ok. intros H. apply andb_prop in H as [Hlen Hall].
  apply Nat.eqb_eq in Hlen.
  destruct draws as [|i [|j rest]]; simpl in *; try discriminate.
  apply andb_prop in Hall as [Hi _]. apply Nat.ltb_lt in Hi.
  f_equal. lia.
Qed.

(** After one [push] into an empty [ReplayBuffer], [sample(1)] returns, for
    each field of the pushed item in order, that field alone stacked and
    converted to a tensor; the only index the generator can draw is 0. *)
Lemma rb_push_then_sample_one (capacity : option nat) (item : list F) :
  ∃ s, ReplayBuffer.push item (ReplayBuffer.__init__ capacity py_list) = Ok tt s ∧
       ReplayBuffer.size s = 1 ∧
       ReplayBuffer.sample shape FloatTensor [0] 1 s
       = Returns (map (λ f, FloatTensor [f]) item) ∧
       ∀ draws,
         ReplayBuffer.sample shape FloatTensor draws 1 s
         = Returns (map (λ f, FloatTensor [f]) item) ∨
         ReplayBuffer.sample shape FloatTensor draws 1 s = BadDraw.
Proof.
  destruct (rb_push_append (ReplayBuffer.__init__ capacity py_list) item) as [o ->].
  { unfold ReplayBuffer.size. simpl. by destruct capacity as [[|c]|]. }
  eexists. split; [done|]. simpl.
  assert (ReplayBuffer.sample shape FloatTensor [0] 1
            {| ReplayBuffer.capacity := capacity_or_inf capacity;
               ReplayBuffer.buffer := [item];
               ReplayBuffer.buffer_offset := o |}
          = Returns (map (λ f, FloatTensor [f]) item)) as H0.
  { unfold ReplayBuffer.sample, ReplayBuffer.size. simpl.
    rewrite np_stack_singletons. by rewrite map_map. }
  split; [done|]. split; [done|].
  intros draws.
  destruct (randint_ok 1 1 draws) eqn:Hok.
  - apply randint_one in Hok as ->. by left.
  - right. unfold ReplayBuffer.sample, ReplayBuffer.size. simpl. by rewrite Hok.
Qed.

End ReplayBufferSample.

Lemma to_float32_fixed (item : list (list spec_float)) :
  Forall (Forall (λ x, to_float32 x = x)) item →
  map (λ f, FloatTensor_of_float64 [f]) item = map (λ f, [f]) item.
Proof.
  induction 1 as [|f item Hf _ IH]; [done|].
  change (FloatTensor_of_float64 [f] :: map (λ f, FloatTensor_of_float64 [f]) item
          = [f] :: map (λ f, [f]) item).
  rewrite IH. do 2 f_equal. unfold FloatTensor_of_float64. simpl. f_equal.
  induction Hf as [|x f Hx _ IHf]; [done|]. simpl. by rewrite Hx, IHf.
Qed.

(** C10, as amended: after pushing a single item whose fields are arrays of
    64-bit floats into an empty [ReplayBuffer], [sample(1)] returns that
    item's fields, in order, each stacked alone and with every value
    rounded to the nearest 32-bit float by [torch.FloatTensor]; the values
    come back unmodified when each of them is a 32-bit float already. *)
Theorem push_then_sample_one_float32 (capacity : option nat)
    (item : list (list spec_float)) :
  ∃ s, ReplayBuffer.push item (ReplayBuffer.__init__ capacity py_list) = Ok tt s ∧
       ReplayBuffer.size s = 1 ∧
       sample_float64 [0] 1 s = Returns (map (λ f, [map to_float32 f]) item) ∧
       (∀ draws,
          sample_float64 draws 1 s = Returns (map (λ f, [map to_float32 f]) item) ∨
          sample_float64 draws 1 s = BadDraw) ∧
       (Forall (Forall (λ x, to_float32 x = x)) item →
        sample_float64 [0] 1 s = Returns (map (λ f, [f]) item)).
Proof.
  destruct (rb_push_then_sample_one (λ a : list spec_float, [length a])
              FloatTensor_of_float64 capacity item)
    as (s & Hpush & Hsize & Hzero & Hall).
  exists s. split; [exact Hpush|]. split; [exact Hsize|].
  split; [exact Hzero|]. split; [exact Hall|].
  intros Hfixed. rewrite <- (to_float32_fixed item Hfixed). exact Hzero.
Qed.

(** C10 as amended for the item [([0.5, 0.25], [2.0])], whose values are
    32-bit floats: they come back unmodified. *)
Lemma push_then_sample_one_float32_witness :
  Forall (Forall (λ x, to_float32 x = x))
    [[S754_finite false 4503599627370496 (-53);
      S754_finite false 4503599627370496 (-54)];
     [S754_finite false 4503599627370496 (-51)]] ∧
  ∃ s,
    ReplayBuffer.push
      [[S754_finite false 4503599627370496 (-53);
        S754_finite false 4503599627370496 (-54)];
       [S754_finite false 4503599627370496 (-51)]]
      (ReplayBuffer.__init__ (Some 3) py_list) = Ok tt s ∧
    sample_float64 [0] 1 s
    = Returns [[[S754_finite false 4503599627370496 (-53);
                 S754_finite false 4503599627370496 (-54)]];
               [[S754_finite false 4503599627370496 (-51)]]].
Proof.
  assert (Forall (Forall (λ x, to_float32 x = x))
            [[S754_finite false 4503599627370496 (-53);
              S754_finite false 4503599627370496 (-54)];
             [S754_finite false 4503599627370496 (-51)]]) as Hfixed.
  { repeat constructor. }
  split; [exact Hfixed|].
  destruct (push_then_sample_one_float32 (Some 3)
              [[S754_finite false 4503599627370496 (-53);
                S754_finite false 4503599627370496 (-54)];
               [S754_finite false 4503599627370496 (-51)]])
    as (s & Hpush & _ & _ & _ & Hsame).
  exists s. split; [exact Hpush|]. exact (Hsame Hfixed).
Defined.

(** C10 as stated fails for a value that is not a 32-bit float: after
    pushing the item [([0.1],)], [sample(1)] returns
    [7205759511166976 * 2 ** -56], the 32-bit float nearest to [0.1], and
    not the pushed [7205759403792794 * 2 ** -56]. *)
Lemma sample_rounds_pushed_value :
  sample_float64 [0] 1
    (state_of (ReplayBuffer.push [[float_0_1]] (ReplayBuffer.__init__ None py_list)))
  = Returns [[[S754_finite false 7205759511166976 (-56)]]] ∧
  [[[S754_finite false 7205759511166976 (-56)]]] ≠ [[[float_0_1]]].
Proof. split; [reflexivity|discriminate]. Qed.

(** ** Flow control *)






(** ** Lists as stacked arrays *)

Lemma lookup_map {A B : Type} (f : A → B) (l : list A) (i : nat) :
  map f l !! i = f <$> l !! i.
Proof. revert i. induction l as [|x l IH]; intros [|i]; simpl; auto. Qed.

Section StackedArrays.
Context {A : Type}.

Lemma map_exn_np_stack (shape : A → list nat) (cols stacked : list (list A)) :
  map_exn (np_stack shape) cols = inr stacked → stacked = cols.
Proof.
  revert stacked. induction cols as [|c cols IH]; intros stacked; simpl.
  - by intros [= <-].
  - destruct (np_stack shape c) as [e|c'] eqn:Hc; [done|].
    destruct (map_exn (np_stack shape) cols) as [e|cs] eqn:Hcs; [done|].
    intros [= <-]. f_equal; [|by apply IH].
    unfold np_stack in Hc. destruct c as [|a rest]; [done|].
    destruct (forallb _ rest); by inversion Hc.
Qed.

Lemma zip_star_cons (x y : list A) (rest : list (list A)) :
  zip_star (x :: y :: rest) = zip_with cons x (zip_star (y :: rest)).
Proof. reflexivity. Qed.

(** [zip( *batch )] of [n]-tuples: [n] columns, one entry per tuple. *)
Lemma zip_star_columns (batch : list (list A)) (n : nat) :
  batch ≠ [] →
  Forall (λ x, length x = n) batch →
  length (zip_star batch) = n ∧
  ∀ k col, zip_star batch !! k = Some col →
    length col = length batch ∧
    ∀ b x, batch !! b = Some x → col !! b = x !! k.
Proof.
  induction batch as [|x [|y rest] IH]; intros Hne Hall; [done| |].
  - apply Forall_inv in Hall. simpl. split; [by rewrite length_map|].
    intros k col Hk. rewrite lookup_map in Hk.
    destruct (x !! k) as [f|] eqn:Hf; [|done]. injection Hk as <-.
    split; [done|]. intros [|b] x' Hb; simpl in *; [|done].
    by injection Hb as <-.
  - rewrite zip_star_cons.
    pose proof (Forall_inv Hall) as Hx. simpl in Hx. apply Forall_inv_tail in Hall.
    destruct IH as [Hlen Hcols]; [done|done|]. split.
    { rewrite length_zip_with. lia. }
    intros k col Hk. apply lookup_zip_with_Some in Hk as (f & col' & -> & Hf & Hcol').
    destruct (Hcols k col' Hcol') as [Hlen' Hent]. split.
    { simpl in *. lia. }
    intros [|b] x' Hb.
    + injection Hb as <-. simpl. done.
    + simpl. by apply Hent.
Qed.

(** Below the width of every row, [omap (!! t)] keeps one entry per row. *)
Lemma omap_lookup_rows (m : list (list A)) (t : nat) :
  Forall (λ r, t < length r) m →
  length (omap (λ r : list A, r !! t) m) = length m ∧
  ∀ b r, m !! b = Some r → omap (λ r : list A, r !! t) m !! b = r !! t.
Proof.
  induction m as [|r m IH]; intros Hall; [done|].
  pose proof (Forall_inv Hall) as Hr. apply Forall_inv_tail in Hall.
  destruct (IH Hall) as [Hlen Hent].
  destruct (lookup_lt_is_Some_2 r t Hr) as [x Hx].
  change (omap (λ r0 : list A, r0 !! t) (r :: m))
    with (match r !! t with
          | Some y => y :: omap (λ r0 : list A, r0 !! t) m
          | None => omap (λ r0 : list A, r0 !! t) m
          end).
  rewrite Hx. split; [simpl; lia|].
  intros [|b] r' Hb; simpl in *.
  - by injection Hb as <-.
  - by apply Hent.
Qed.

(** [transpose(0, 1)] of [n] rows of width [w]: [w] rows of width [n]. *)
Lemma transpose01_rows (m : list (list A)) (w : nat) :
  m ≠ [] →
  Forall (λ r, length r = w) m →
  length (transpose01 m) = w ∧
  ∀ t, t < w →
    ∃ at_t, transpose01 m !! t = Some at_t ∧
      length at_t = length m ∧
      ∀ b r, m !! b = Some r → at_t !! b = r !! t.
Proof.
  destruct m as [|r0 m']; [done|]. intros _ Hall.
  pose proof (Forall_inv Hall) as Hr0.
  unfold transpose01. rewrite length_map, length_seq. split; [done|].
  intros t Ht. rewrite lookup_map, Hr0, lookup_seq_lt by done. simpl.
  eexists. split; [reflexivity|].
  apply (omap_lookup_rows (r0 :: m') t).
  eapply Forall_impl; [exact Hall|]. simpl. intros r ->. done.
Qed.

End StackedArrays.

(** ** Sampling from a TrajectoryReplayBuffer *)

Lemma trajectory_slot_inv {row : Type} (slot : list (list row)) (L : nat) :
  trajectory_slot slot L →
  ∃ o a r n d h, slot = [o; a; r; n; d; h] ∧ length o = L.
Proof.
  intros [Hlen Hall].
  destruct slot as [|o [|a [|r [|n [|d [|h [|]]]]]]]; try discriminate.
  exists o, a, r, n, d, h. split; [done|]. by apply Forall_inv in Hall.
Qed.

Section TrajectorySample.
Context {row trow hid hiddens_t : Type}.
Variable float32 : row → trow.
Variable unsqueeze0 : row → hid.
Variable LSTMHidden_cat : list hid → hiddens_t.
Implicit Types (self : TrajectoryReplayBuffer.t row) (tape : list nat).

Lemma retry_loop_returns self step_size tape d tape' :
  stores_trajectories self →
  TrajectoryReplayBuffer.retry_loop unsqueeze0 self step_size tape = Returns (d, tape') →
  ∃ index offset, drawn_at unsqueeze0 self step_size (index, offset) d.
Proof.
  intros Hst. induction tape as [|index tape1 IH]; simpl.
  - by destruct (decide _).
  - destruct (decide _) as [|_]; [done|].
    unfold TrajectoryReplayBuffer.choice_ok.
    destruct (TrajectoryReplayBuffer.lengths self !! index) as [L|] eqn:HL; [|done].
    destruct (0 <? L); [|done]. simpl.
    destruct (Forall2_lookup_r _ _ _ _ _ Hst HL) as (slot & Hslot & Hts).
    rewrite Hslot.
    destruct (trajectory_slot_inv slot L Hts) as (o & a & r & n & dn & h & -> & Ho).
    destruct (decide (step_size ≤ length o)) as [Hge|Hlt]; [|exact IH].
    destruct tape1 as [|offset tape2]; [done|].
    destruct (decide (offset ≤ length o - step_size)) as [Hoff|]; [|done].
    destruct (h !! offset) as [x|] eqn:Hx; [|done].
    intros [= <- <-]. exists index, offset, [o; a; r; n; dn; h], L, x.
    simpl. unfold array_row. rewrite Hslot. simpl.
    repeat split; try done; try lia. apply Hts.
Qed.

Lemma draw_batch_returns self step_size batch_size tape ds :
  stores_trajectories self →
  TrajectoryReplayBuffer.draw_batch unsqueeze0 self step_size batch_size tape
  = Returns ds →
  length ds = batch_size ∧
  ∃ draws, Forall2 (drawn_at unsqueeze0 self step_size) draws ds.
Proof.
  intros Hst. revert tape ds.
  induction batch_size as [|n IH]; intros tape ds; simpl.
  - intros [= <-]. split; [done|]. by exists [].
  - destruct (TrajectoryReplayBuffer.retry_loop unsqueeze0 self step_size tape)
      as [[d tape']| | |] eqn:Hd; try done.
    destruct (TrajectoryReplayBuffer.draw_batch unsqueeze0 self step_size n tape')
      as [ds'| | |] eqn:Hds; try done.
    intros [= <-]. destruct (IH _ _ Hds) as [Hlen [draws Hdraws]].
    destruct (retry_loop_returns _ _ _ _ _ Hst Hd) as (index & offset & Hdrawn).
    split; [simpl; lia|]. exists ((index, offset) :: draws). by constructor.
Qed.

Lemma sample_returns_inv self tape batch_size step_size result :
  TrajectoryReplayBuffer.sample float32 unsqueeze0 LSTMHidden_cat
    tape batch_size step_size self = Returns result →
  ∃ ds,
    TrajectoryReplayBuffer.draw_batch unsqueeze0 self step_size batch_size tape
    = Returns ds ∧
    fields result
    = map (λ a, transpose01 (TrajectoryReplayBuffer.FloatTensor float32 a))
          (zip_star (map fst ds)) ∧
    TrajectoryReplayBuffer.hidden result = LSTMHidden_cat (map snd ds).
Proof.
  unfold TrajectoryReplayBuffer.sample.
  destruct (TrajectoryReplayBuffer.draw_batch unsqueeze0 self step_size batch_size tape)
    as [ds| | |]; try done.
  destruct (map_exn _ (zip_star (map fst ds))) as [e|stacked] eqn:Hst; [done|].
  apply map_exn_np_stack in Hst as ->.
  destruct (map _ (zip_star (map fst ds)))
    as [|o [|a [|r [|n [|d [|]]]]]] eqn:Hf; try done.
  intros [= <-]. exists ds. by repeat split.
Qed.

(** A stacked column of sub-sequences of width [step_size], converted and
    transposed, is time-major. *)
Lemma time_major_field (col : list (list row)) (step_size : nat) :
  col ≠ [] →
  Forall (λ sub, length sub = step_size) col →
  length (transpose01 (TrajectoryReplayBuffer.FloatTensor float32 col)) = step_size ∧
  Forall (λ at_t, length at_t = length col)
    (transpose01 (TrajectoryReplayBuffer.FloatTensor float32 col)) ∧
  ∀ t b sub, t < step_size → col !! b = Some sub →
    entry (transpose01 (TrajectoryReplayBuffer.FloatTensor float32 col)) t b
    = float32 <$> sub !! t.
Proof.
  intros Hne Hall. unfold TrajectoryReplayBuffer.FloatTensor.
  destruct (transpose01_rows (map (map float32) col) step_size) as [Hlen Hrows].
  { by destruct col. }
  { apply Forall_forall. intros r Hr. apply list_elem_of_In, in_map_iff in Hr
      as (sub & <- & Hsub). rewrite length_map.
    apply list_elem_of_In in Hsub. by apply (proj1 (Forall_forall _ _) Hall). }
  split; [done|]. split.
  - apply Forall_lookup. intros t at_t Hat.
    assert (t < step_size) as Ht.
    { rewrite <- Hlen. by eapply lookup_lt_Some. }
    destruct (Hrows t Ht) as (at_t' & Hat' & Hl & _).
    rewrite Hat in Hat'. injection Hat' as <-. by rewrite Hl, length_map.
  - intros t b sub Ht Hb. destruct (Hrows t Ht) as (at_t & Hat & _ & Hent).
    unfold entry. rewrite Hat.
    rewrite (Hent b (map float32 sub)).
    + apply lookup_map.
    + by rewrite lookup_map, Hb.
Qed.

Lemma length_slice {A : Type} (a : list A) (lo width : nat) :
  lo + width ≤ length a → length (slice a lo width) = width.
Proof. intros H. unfold slice. rewrite length_take, length_drop. lia. Qed.

Lemma lookup_slice {A : Type} (a : list A) (lo width t : nat) :
  t < width → slice a lo width !! t = a !! (lo + t).
Proof. intros H. unfold slice. by rewrite lookup_take_lt, lookup_drop. Qed.

Lemma drawn_at_field self step_size index offset (x : list (list row) * hid) k :
  drawn_at unsqueeze0 self step_size (index, offset) x →
  length x.1 = 5 ∧
  (k < 5 →
   ∃ slot a L,
     TrajectoryReplayBuffer.buffer self !! index = Some slot ∧
     slot !! k = Some a ∧
     length a = L ∧ step_size ≤ L ∧ offset ≤ L - step_size ∧
     x.1 !! k = Some (slice a offset step_size)).
Proof.
  intros (slot & L & h & Hslot & HL & [Hlen Hall] & Hge & Hoff & Hx & _).
  simpl in *. rewrite Hx. split.
  - rewrite length_map, length_take. lia.
  - intros Hk. destruct (lookup_lt_is_Some_2 slot k) as [a Ha]; [lia|].
    exists slot, a, L. repeat split; try done.
    + by apply (Forall_lookup_1 _ _ _ _ Hall Ha).
    + by rewrite lookup_map, lookup_take_lt, Ha.
Qed.

Lemma drawn_at_hiddens self step_size (draws : list (nat * nat))
    (ds : list (list (list row) * hid)) :
  Forall2 (drawn_at unsqueeze0 self step_size) draws ds →
  ∃ hs, Forall2 (λ d h, array_row self d.1 5 d.2 = Some h) draws hs ∧
        map snd ds = map unsqueeze0 hs.
Proof.
  induction 1 as [|d x draws ds Hd _ (hs & Hhs & Heq)]; [by exists []|].
  destruct Hd as (slot & L & h & _ & _ & _ & _ & _ & _ & Hh & Hx).
  exists (h :: hs). split; [by constructor|]. simpl. by rewrite Hx, Heq.
Qed.

(** C6: when [sample(batch_size, step_size)] returns from a buffer that
    stores trajectories, there are [batch_size] draws (slot index, start
    offset), each of a stored trajectory of length [L ≥ step_size] at an
    offset in [[0, L - step_size]]; every returned field has shape
    [(step_size, batch_size)] over rows, its entry [[t][b]] being row
    [offset + t] of that field of the trajectory drawn for [b]; and the
    hidden part is built from exactly the hidden-state entry at the start
    offset of each draw. *)
Theorem sample_returns_subsequences self tape batch_size step_size result :
  stores_trajectories self →
  TrajectoryReplayBuffer.sample float32 unsqueeze0 LSTMHidden_cat
    tape batch_size step_size self = Returns result →
  ∃ draws : list (nat * nat),
    length draws = batch_size ∧
    Forall (λ d, ∃ L, TrajectoryReplayBuffer.lengths self !! d.1 = Some L ∧
                      step_size ≤ L ∧ d.2 ≤ L - step_size) draws ∧
    Forall (λ field, length field = step_size ∧
                     Forall (λ at_t, length at_t = batch_size) field)
           (fields result) ∧
    (∀ k b t index offset,
       k < 5 → draws !! b = Some (index, offset) → t < step_size →
       ∃ x field,
         array_row self index k (offset + t) = Some x ∧
         fields result !! k = Some field ∧
         entry field t b = Some (float32 x)) ∧
    ∃ hs, Forall2 (λ d h, array_row self d.1 5 d.2 = Some h) draws hs ∧
          TrajectoryReplayBuffer.hidden result
          = LSTMHidden_cat (map unsqueeze0 hs).
Proof.
  intros Hst Hret.
  destruct (sample_returns_inv _ _ _ _ _ Hret) as (ds & Hdb & Hfields & Hhid).
  destruct (draw_batch_returns _ _ _ _ _ Hst Hdb) as [Hlen [draws Hdraws]].
  pose proof (Forall2_length _ _ _ Hdraws) as Hlen'.
  assert (length draws = batch_size) as Hdlen by exact (eq_trans Hlen' Hlen).
  set (batch := map fst ds) in *.
  assert (length batch = batch_size) as Hbatch.
  { unfold batch. by rewrite length_map. }
  assert (Forall (λ x, length x = 5) batch) as Hfive.
  { apply Forall_lookup. intros b x Hb. unfold batch in Hb.
    rewrite lookup_map in Hb. apply fmap_Some in Hb as (dd & Hdd & ->).
    destruct (Forall2_lookup_r _ _ _ _ _ Hdraws Hdd) as ([index offset] & _ & Hd).
    apply (drawn_at_field _ _ _ _ _ 0 Hd). }
  assert (length (zip_star batch) = 5) as Hcols5.
  { apply (f_equal length) in Hfields. rewrite length_map in Hfields. done. }
  assert (batch ≠ []) as Hne.
  { intros Hnil. rewrite Hnil in Hcols5. discriminate. }
  destruct (zip_star_columns batch 5 Hne Hfive) as [_ Hcols].
  assert (∀ k col b sub, zip_star batch !! k = Some col → col !! b = Some sub →
            ∃ index offset slot a,
              draws !! b = Some (index, offset) ∧
              TrajectoryReplayBuffer.buffer self !! index = Some slot ∧
              slot !! k = Some a ∧
              offset + step_size ≤ length a ∧
              sub = slice a offset step_size) as Hsub.
  { intros k col b sub Hk Hb. destruct (Hcols k col Hk) as [Hlc Hent].
    assert (k < 5) as Hk5. { rewrite <- Hcols5. by eapply lookup_lt_Some. }
    destruct (lookup_lt_is_Some_2 ds b) as [dd Hdd].
    { apply lookup_lt_Some in Hb. rewrite Hlc, Hbatch in Hb. lia. }
    destruct (Forall2_lookup_r _ _ _ _ _ Hdraws Hdd) as ([index offset] & Hdr & Hd).
    destruct (drawn_at_field _ _ _ _ _ k Hd) as [_ Hfield].
    destruct (Hfield Hk5) as (slot & a & L & Hslot & Ha & HaL & Hge & Hoff & Hx).
    assert (batch !! b = Some (fst dd)) as Hbd.
    { unfold batch. rewrite lookup_map. apply fmap_Some.
      exists dd. split; [exact Hdd|done]. }
    rewrite (Hent b (fst dd) Hbd) in Hb.
    rewrite Hx in Hb. injection Hb as <-.
    exists index, offset, slot, a. repeat split; try done. lia. }
  assert (∀ k col, zip_star batch !! k = Some col →
            col ≠ [] ∧ length col = batch_size ∧
            Forall (λ sub, length sub = step_size) col) as Hcol.
  { intros k col Hk. destruct (Hcols k col Hk) as [Hlc _]. repeat split.
    - intros ->. simpl in Hlc. destruct batch; [done|discriminate].
    - lia.
    - apply Forall_lookup. intros b sub Hb.
      destruct (Hsub k col b sub Hk Hb) as (? & offset & ? & a & _ & _ & _ & Hle & ->).
      by apply length_slice. }
  exists draws. split; [done|]. split; [|split; [|split]].
  - apply Forall_lookup. intros b [index offset] Hb.
    destruct (Forall2_lookup_l _ _ _ _ _ Hdraws Hb)
      as (x & _ & slot & L & h & _ & HL & _ & Hge & Hoff & _).
    exists L. simpl in *. done.
  - rewrite Hfields. apply Forall_lookup. intros k field Hk.
    rewrite lookup_map in Hk. apply fmap_Some in Hk as (col & Hcolk & ->).
    destruct (Hcol k col Hcolk) as (Hcne & Hclen & Hcall).
    destruct (time_major_field col step_size Hcne Hcall) as (Hl & Hw & _).
    split; [done|]. by rewrite <- Hclen.
  - intros k b t index offset Hk Hb Ht.
    destruct (lookup_lt_is_Some_2 (zip_star batch) k) as [col Hcolk]; [lia|].
    destruct (Hcol k col Hcolk) as (Hcne & Hclen & Hcall).
    destruct (lookup_lt_is_Some_2 col b) as [sub Hsubb].
    { apply lookup_lt_Some in Hb. lia. }
    destruct (Hsub k col b sub Hcolk Hsubb)
      as (index' & offset' & slot & a & Hb' & Hslot & Ha & Hle & ->).
    rewrite Hb in Hb'. injection Hb' as <- <-.
    destruct (lookup_lt_is_Some_2 a (offset + t)) as [x Hx]; [lia|].
    destruct (time_major_field col step_size Hcne Hcall) as (_ & _ & Hent).
    exists x, (transpose01 (TrajectoryReplayBuffer.FloatTensor float32 col)).
    split; [|split].
    + unfold array_row. by rewrite Hslot, Ha.
    + by rewrite Hfields, lookup_map, Hcolk.
    + rewrite (Hent t b _ Ht Hsubb), lookup_slice by done. by rewrite Hx.
  - destruct (drawn_at_hiddens _ _ _ _ Hdraws) as (hs & Hhs & Heq).
    exists hs. split; [done|]. by rewrite Hhid, Heq.
Qed.

Lemma retry_loop_only_short self step_size tape :
  0 < TrajectoryReplayBuffer.size self →
  only_short_trajectories self step_size →
  (TrajectoryReplayBuffer.retry_loop unsqueeze0 self step_size tape = Pending ∨
   TrajectoryReplayBuffer.retry_loop unsqueeze0 self step_size tape = BadDraw) ∧
  (Forall (λ i, TrajectoryReplayBuffer.choice_ok
                  (TrajectoryReplayBuffer.lengths self) i = true) tape →
   TrajectoryReplayBuffer.retry_loop unsqueeze0 self step_size tape = Pending).
Proof.
  intros Hpos Hshort. unfold TrajectoryReplayBuffer.size in Hpos.
  induction tape as [|index tape1 IH]; simpl.
  - destruct (decide _) as [Hz|_]; [lia|]. auto.
  - destruct (decide _) as [Hz|_]; [lia|].
    destruct (TrajectoryReplayBuffer.choice_ok
                (TrajectoryReplayBuffer.lengths self) index) eqn:Hok; simpl.
    + unfold TrajectoryReplayBuffer.choice_ok in Hok.
      destruct (TrajectoryReplayBuffer.lengths self !! index) as [L|] eqn:HL; [|done].
      apply Nat.ltb_lt in Hok.
      destruct (Hshort index L HL Hok) as (o & a & r & n & dn & h & -> & Ho).
      destruct (decide (step_size ≤ length o)) as [Hge|_]; [lia|].
      destruct IH as [IH1 IH2]. split; [done|].
      intros Hv. apply IH2. by apply Forall_inv_tail in Hv.
    + split; [by right|]. intros Hv. apply Forall_inv in Hv. congruence.
Qed.

Lemma retry_loop_returns_slot self step_size tape d tape' :
  TrajectoryReplayBuffer.retry_loop unsqueeze0 self step_size tape = Returns (d, tape') →
  ∃ i o a r n dn h,
    TrajectoryReplayBuffer.buffer self !! i = Some [o; a; r; n; dn; h] ∧
    step_size ≤ length o.
Proof.
  induction tape as [|index tape1 IH]; simpl.
  - by destruct (decide _).
  - destruct (decide _) as [|_]; [done|].
    destruct (TrajectoryReplayBuffer.choice_ok _ index); [|done]. simpl.
    destruct (TrajectoryReplayBuffer.buffer self !! index) as [slot|] eqn:Hslot;
      [|done].
    destruct slot as [|o [|a [|r [|n [|dn [|h [|]]]]]]]; try done.
    destruct (decide (step_size ≤ length o)) as [Hge|Hlt]; [|exact IH].
    intros _. by exists index, o, a, r, n, dn, h.
Qed.

(** C7, as amended: for [batch_size ≥ 1]: on a buffer whose stored lengths
    have a positive sum and in which every slot the generator can draw
    holds six arrays with fewer than [step_size] observation rows, the call
    neither returns nor raises on any sequence of draws, and is still
    re-drawing at the end of every sequence of draws the generator can
    produce; and whenever the call returns, some slot holds six arrays with
    at least [step_size] observation rows. *)
Theorem sample_without_long_trajectory self tape batch_size step_size :
  1 ≤ batch_size →
  (0 < TrajectoryReplayBuffer.size self →
   only_short_trajectories self step_size →
   (TrajectoryReplayBuffer.sample float32 unsqueeze0 LSTMHidden_cat
      tape batch_size step_size self = Pending ∨
    TrajectoryReplayBuffer.sample float32 unsqueeze0 LSTMHidden_cat
      tape batch_size step_size self = BadDraw) ∧
   (Forall (λ i, TrajectoryReplayBuffer.choice_ok
                   (TrajectoryReplayBuffer.lengths self) i = true) tape →
    TrajectoryReplayBuffer.sample float32 unsqueeze0 LSTMHidden_cat
      tape batch_size step_size self = Pending)) ∧
  (∀ result,
     TrajectoryReplayBuffer.sample float32 unsqueeze0 LSTMHidden_cat
       tape batch_size step_size self = Returns result →
     ∃ i o a r n d h,
       TrajectoryReplayBuffer.buffer self !! i = Some [o; a; r; n; d; h] ∧
       step_size ≤ length o).
Proof.
  intros Hbatch. split.
  - intros Hpos Hshort.
    destruct (retry_loop_only_short self step_size tape Hpos Hshort) as [Hor Hv].
    destruct batch_size as [|n]; [lia|].
    unfold TrajectoryReplayBuffer.sample. simpl. split.
    + destruct Hor as [-> | ->]; auto.
    + intros Hvalid. by rewrite (Hv Hvalid).
  - intros result Hret.
    destruct (sample_returns_inv _ _ _ _ _ Hret) as (ds & Hdb & _ & _).
    destruct batch_size as [|n]; [lia|]. simpl in Hdb.
    destruct (TrajectoryReplayBuffer.retry_loop unsqueeze0 self step_size tape)
      as [[d tape']| | |] eqn:Hd; try done.
    by eapply retry_loop_returns_slot.
Qed.

End TrajectorySample.

(** C6 on [example_buffer]: two sub-sequences of 2 steps, drawn at offsets 1
    and 0 of the stored trajectory. *)
Lemma sample_returns_subsequences_witness :
  stores_trajectories example_buffer ∧
  TrajectoryReplayBuffer.sample (λ x : nat, x) (λ x : nat, x) (λ hs : list nat, hs)
    [0; 1; 0; 0] 2 2 example_buffer
  = Returns (TrajectoryReplayBuffer.mk_sampled
               [[2; 1]; [3; 2]] [[5; 4]; [6; 5]] [[8; 7]; [9; 8]]
               [[11; 10]; [12; 11]] [[14; 13]; [15; 14]] [17; 16]) ∧
  ∃ draws : list (nat * nat),
    length draws = 2 ∧
    Forall (λ d, ∃ L, TrajectoryReplayBuffer.lengths example_buffer !! d.1 = Some L ∧
                      2 ≤ L ∧ d.2 ≤ L - 2) draws.
Proof.
  assert (stores_trajectories example_buffer) as Hst.
  { repeat constructor. }
  split; [exact Hst|]. split; [reflexivity|].
  destruct (sample_returns_subsequences (λ x : nat, x) (λ x : nat, x)
              (λ hs : list nat, hs) example_buffer [0; 1; 0; 0] 2 2 _ Hst eq_refl)
    as (draws & Hlen & Hdraws & _).
  exists draws. split; [exact Hlen|exact Hdraws].
Defined.

(** C7 as stated fails on the empty buffer: every stored trajectory is
    (vacuously) shorter than [step_size = 1], and [sample(1, 1)] raises
    [ValueError] at the first [np.random.choice], whatever the generator
    would have drawn. *)
Lemma sample_empty_buffer_raises :
  Forall (λ L, L < 1)
    (TrajectoryReplayBuffer.lengths (TrajectoryReplayBuffer.empty (row := nat) None)) ∧
  stores_trajectories (TrajectoryReplayBuffer.empty (row := nat) None) ∧
  TrajectoryReplayBuffer.sample (λ x : nat, x) (λ x : nat, x) (λ hs : list nat, hs)
    [] 1 1 (TrajectoryReplayBuffer.empty None) = Raises ValueError ∧
  TrajectoryReplayBuffer.sample (λ x : nat, x) (λ x : nat, x) (λ hs : list nat, hs)
    [0; 0; 0; 0] 1 1 (TrajectoryReplayBuffer.empty None) = Raises ValueError.
Proof. repeat split; constructor. Qed.

(** C7 as amended on [example_buffer] with windows of 5 steps: the call is
    still re-drawing after the generator has drawn slot 0 four times. *)
Lemma sample_without_long_trajectory_witness :
  1 ≤ 1 ∧
  0 < TrajectoryReplayBuffer.size example_buffer ∧
  only_short_trajectories example_buffer 5 ∧
  TrajectoryReplayBuffer.sample (λ x : nat, x) (λ x : nat, x) (λ hs : list nat, hs)
    [0; 0; 0; 0] 1 5 example_buffer = Pending.
Proof.
  assert (0 < TrajectoryReplayBuffer.size example_buffer) as Hpos.
  { cbv. lia. }
  assert (only_short_trajectories example_buffer 5) as Hshort.
  { intros [|i] L Hi HL; [|discriminate].
    eexists _, _, _, _, _, _. split; [reflexivity|]. simpl. lia. }
  split; [lia|]. split; [exact Hpos|]. split; [exact Hshort|].
  apply (sample_without_long_trajectory (λ x : nat, x) (λ x : nat, x)
           (λ hs : list nat, hs) example_buffer [0; 0; 0; 0] 1 5 (le_n 1)).
  - exact Hpos.
  - exact Hshort.
  - repeat constructor.
Defined.

(** * Further properties of the buffers and of the training loop *)

(** ** ReplayBuffer: circular overwrite *)

Lemma for_each_app {S A : Type} (xs ys : list A) (body : A → M S unit) (s : S) :
  for_each (xs ++ ys) body s
  = match for_each xs body s with
    | Ok _ s' => for_each ys body s'
    | Raised e s' => Raised e s'
    end.
Proof.
  revert s. induction xs as [|x xs IH]; intros s; [done|].
  simpl. unfold mbind, M_bind, bind. destruct (body x s); [apply IH|done].
Qed.

Lemma for_each_singleton {S A : Type} (x : A) (body : A → M S unit) (s : S) :
  for_each [x] body s = body x s.
Proof.
  simpl. unfold mbind, M_bind, bind, ret. by destruct (body x s) as [[] ?|].
Qed.

Lemma mod_differs (k n c : nat) : k < n → n < k + c → k `mod` c ≠ n `mod` c.
Proof.
  intros Hkn Hnc Heq. assert (c ≠ 0) as Hc by lia.
  pose proof (Nat.div_mod k c Hc) as Hk. pose proof (Nat.div_mod n c Hc) as Hn.
  rewrite Heq in Hk.
  assert (k `div` c < n `div` c ∨ n `div` c ≤ k `div` c) as [Hlt|Hge] by lia; nia.
Qed.

Section ReplayBufferCircular.
Context {F : Type}.
Implicit Types (item : list F) (items buf : list (list F)).

Lemma rb_push_bounded (c off : nat) buf item :
  c ≠ 0 →
  ReplayBuffer.push item (ReplayBuffer.mk (Finite c) buf off)
  = if decide (length buf < c)
    then Ok tt (ReplayBuffer.mk (Finite c) (buf ++ [item]) ((off + 1) `mod` c))
    else if decide (off < length buf)
         then Ok tt (ReplayBuffer.mk (Finite c) (<[off := item]> buf)
                       ((off + 1) `mod` c))
         else Raised IndexError (ReplayBuffer.mk (Finite c) buf off).
Proof.
  intros Hc. unfold ReplayBuffer.push. run_M. unfold ReplayBuffer.size. simpl.
  destruct (decide (length buf < c)) as [Hlt|Hge].
  - rewrite (proj2 (Nat.ltb_lt _ _) Hlt). simpl.
    unfold ReplayBuffer.offset_imod. run_M. by destruct (decide (c = 0)).
  - rewrite (proj2 (Nat.ltb_ge _ _)) by lia.
    unfold ReplayBuffer.buffer_setitem, ReplayBuffer.offset. simpl.
    destruct (decide (off < length buf)); [|done]. simpl.
    unfold ReplayBuffer.offset_imod. run_M. by destruct (decide (c = 0)).
Qed.

Lemma rb_push_unbounded (off : nat) buf item :
  ReplayBuffer.push item (ReplayBuffer.mk Inf buf off)
  = Ok tt (ReplayBuffer.mk Inf (buf ++ [item]) (off + 1)).
Proof. reflexivity. Qed.

Lemma rb_push_each_layout (c : nat) items :
  c ≠ 0 →
  ∃ buf,
    ReplayBuffer.push_each items (ReplayBuffer.__init__ (Some c) py_list)
    = Ok tt (ReplayBuffer.mk (Finite c) buf (length items `mod` c)) ∧
    length buf = length items `min` c ∧
    ∀ k item, items !! k = Some item → length items ≤ k + c →
      buf !! (k `mod` c) = Some item.
Proof.
  intros Hc. unfold ReplayBuffer.push_each.
  induction items as [|item items IH] using rev_ind.
  - exists []. simpl. destruct c as [|c']; [done|].
    rewrite Nat.Div0.mod_0_l. repeat split. intros k item Hk. done.
  - destruct IH as (buf & Hrun & Hlen & Hslots).
    rewrite for_each_app, Hrun, for_each_singleton, rb_push_bounded by done.
    rewrite length_app. simpl.
    assert ((length items `mod` c + 1) `mod` c = (length items + 1) `mod` c) as Hoff.
    { by rewrite Nat.Div0.add_mod_idemp_l. }
    rewrite Hoff.
    destruct (decide (length buf < c)) as [Hlt|Hge].
    + exists (buf ++ [item]). split; [done|].
      assert (length items < c) as Hn by lia.
      assert (length buf = length items) as Hbuf by lia.
      split; [rewrite length_app; simpl; lia|].
      intros k x Hk Hlast.
      assert (k < length items + 1) as Hkn.
      { apply lookup_lt_Some in Hk. rewrite length_app in Hk. simpl in Hk. lia. }
      rewrite Nat.mod_small by lia.
      destruct (decide (k = length items)) as [->|Hne].
      * rewrite lookup_app_r in Hk by lia. rewrite lookup_app_r by lia.
        by rewrite Hbuf.
      * rewrite lookup_app_l in Hk by lia. rewrite lookup_app_l by lia.
        rewrite <- (Nat.mod_small k c) by lia. apply Hslots; [done|lia].
    + assert (length buf = c) as Hbuf by lia.
      assert (length items `mod` c < length buf) as Ho.
      { rewrite Hbuf. by apply Nat.mod_upper_bound. }
      destruct (decide (length items `mod` c < length buf)); [|done].
      exists (<[length items `mod` c := item]> buf). split; [done|].
      split; [rewrite length_insert; lia|].
      intros k x Hk Hlast.
      assert (k < length items + 1) as Hkn.
      { apply lookup_lt_Some in Hk. rewrite length_app in Hk. simpl in Hk. lia. }
      destruct (decide (k = length items)) as [->|Hne].
      * rewrite lookup_app_r in Hk by lia. rewrite Nat.sub_diag in Hk.
        injection Hk as <-. by apply list_lookup_insert_eq.
      * rewrite lookup_app_l in Hk by lia.
        rewrite list_lookup_insert_ne.
        -- apply Hslots; [done|lia].
        -- intros Heq. symmetry in Heq. revert Heq. apply mod_differs; lia.
Qed.

(** X1: pushing [n] items one by one into an empty [ReplayBuffer] of
    capacity [c ≥ 1] never raises and leaves [min n c] slots, the offset
    [n mod c], and each of the last [c] pushed items in the slot whose index
    is its push index modulo [c]. *)
Theorem push_each_circular_layout (c : nat) items :
  c ≠ 0 →
  ∃ buf,
    ReplayBuffer.push_each items (ReplayBuffer.__init__ (Some c) py_list)
    = Ok tt (ReplayBuffer.mk (Finite c) buf (length items `mod` c)) ∧
    length buf = length items `min` c ∧
    ∀ k item, items !! k = Some item → length items ≤ k + c →
      buf !! (k `mod` c) = Some item.
Proof. apply rb_push_each_layout. Qed.

Lemma rb_push_each_unbounded (off : nat) buf items :
  ReplayBuffer.push_each items (ReplayBuffer.mk Inf buf off)
  = Ok tt (ReplayBuffer.mk Inf (buf ++ items) (off + length items)).
Proof.
  unfold ReplayBuffer.push_each. revert buf off.
  induction items as [|item items IH]; intros buf off.
  - simpl. by rewrite app_nil_r, Nat.add_0_r.
  - change (item :: items) with ([item] ++ items).
    rewrite for_each_app, for_each_singleton, rb_push_unbounded, IH.
    rewrite <- app_assoc. simpl. do 2 f_equal. lia.
Qed.

(** X2: a [ReplayBuffer] built with capacity [None] or [0] is unbounded:
    pushing items one by one never raises, the slots are exactly the pushed
    items in push order, and the offset is their number (it never wraps). *)
Theorem push_each_unbounded items :
  ReplayBuffer.push_each items (ReplayBuffer.__init__ None py_list)
  = Ok tt (ReplayBuffer.mk Inf items (length items)) ∧
  ReplayBuffer.push_each items (ReplayBuffer.__init__ (Some 0) py_list)
  = Ok tt (ReplayBuffer.mk Inf items (length items)).
Proof. split; apply (rb_push_each_unbounded 0 []). Qed.

Lemma rb_do_calls_push_each (calls : list (@ReplayBuffer.call F))
    (self : ReplayBuffer.t F) :
  ReplayBuffer.do_calls calls self
  = ReplayBuffer.push_each (concat (map ReplayBuffer.call_items calls)) self.
Proof.
  unfold ReplayBuffer.do_calls, ReplayBuffer.push_each. revert self.
  induction calls as [|c calls IH]; intros self; [done|].
  change (c :: calls) with ([c] ++ calls). rewrite for_each_app, for_each_singleton.
  simpl. rewrite for_each_app.
  assert (ReplayBuffer.do_call c self
          = for_each (ReplayBuffer.call_items c) ReplayBuffer.push self) as ->.
  { destruct c as [args|trajectory].
    - change (ReplayBuffer.push args self
              = for_each [args] ReplayBuffer.push self).
      symmetry. apply for_each_singleton.
    - apply rb_extend_unfold. }
  destruct (for_each (ReplayBuffer.call_items c) ReplayBuffer.push self);
    [apply IH|done].
Qed.

(** X3: from every state, a sequence of [push] and [extend] calls ends as
    pushing all their items one by one in order does (same slots, same
    offset, same exception); and made on a freshly built buffer of any
    capacity, no call of the sequence raises. *)
Theorem calls_are_pushes (calls : list (@ReplayBuffer.call F)) :
  (∀ self : ReplayBuffer.t F,
     ReplayBuffer.do_calls calls self
     = ReplayBuffer.push_each (concat (map ReplayBuffer.call_items calls)) self) ∧
  (∀ capacity : option nat,
     is_ok (ReplayBuffer.do_calls calls (ReplayBuffer.__init__ capacity py_list))
     = true).
Proof.
  split; [intros self; apply rb_do_calls_push_each|].
  intros capacity. rewrite rb_do_calls_push_each.
  destruct capacity as [[|c]|].
  - unfold ReplayBuffer.__init__. simpl.
    by rewrite (rb_push_each_unbounded 0 []).
  - destruct (rb_push_each_layout (S c)
                (concat (map ReplayBuffer.call_items calls))) as (buf & -> & _);
      done.
  - unfold ReplayBuffer.__init__. simpl.
    by rewrite (rb_push_each_unbounded 0 []).
Qed.

End ReplayBufferCircular.

(** X1 at capacity 3 with four items. *)
Lemma push_each_circular_layout_witness :
  3 ≠ 0 ∧
  ∃ buf,
    ReplayBuffer.push_each [[1]; [2]; [3]; [4]] (ReplayBuffer.__init__ (Some 3) py_list)
    = Ok tt (ReplayBuffer.mk (Finite 3) buf 1) ∧
    length buf = 3 ∧
    buf !! 0 = Some [4].
Proof.
  assert (3 ≠ 0) as H3 by lia. split; [exact H3|].
  destruct (push_each_circular_layout 3 [[1]; [2]; [3]; [4]] H3)
    as (buf & Hrun & Hlen & Hslots).
  exists buf. split; [exact Hrun|]. split; [exact Hlen|].
  apply (Hslots 3 [4]); [reflexivity|simpl; lia].
Defined.

(** ** ReplayBuffer: what [sample] returns *)

Lemma map_exn_fixed {A : Type} (f : A → exn + A) (xs : list A) :
  Forall (λ x, f x = inr x) xs → map_exn f xs = inr xs.
Proof.
  induction 1 as [|x xs Hx _ IH]; [done|]. simpl. by rewrite Hx, IH.
Qed.

Lemma np_stack_same_shape {A : Type} (shape : A → list nat) (arrays : list A) :
  arrays ≠ [] →
  (∀ a b, a ∈ arrays → b ∈ arrays → shape a = shape b) →
  np_stack shape arrays = inr arrays.
Proof.
  destruct arrays as [|a rest]; [done|]. intros _ Hsame. unfold np_stack.
  assert (forallb (λ b, bool_decide (shape b = shape a)) rest = true) as ->; [|done].
  apply forallb_forall. intros b Hb. apply bool_decide_eq_true.
  apply Hsame; [right; by apply list_elem_of_In|left].
Qed.

Section ReplayBufferSampleSpec.
Context {F tensor : Type}.
Variable shape : F → list nat.
Variable FloatTensor : list F → tensor.
Implicit Types (self : ReplayBuffer.t F) (draws : list nat).

Lemma lookup_draws (buf : list (list F)) draws :
  forallb (λ i, i <? length buf) draws = true →
  ∃ batch,
    map_exn (λ i, from_option inr (inl IndexError) (buf !! i)) draws = inr batch ∧
    Forall2 (λ i item, buf !! i = Some item) draws batch.
Proof.
  induction draws as [|i draws IH]; simpl; intros Hall.
  - exists []. by split.
  - apply andb_prop in Hall as [Hi Hall]. apply Nat.ltb_lt in Hi.
    destruct (lookup_lt_is_Some_2 buf i Hi) as [item Hitem].
    destruct (IH Hall) as (batch & -> & Hbatch).
    exists (item :: batch). rewrite Hitem. simpl. split; [done|by constructor].
Qed.

(** X4: on a buffer whose items all have [k] fields, any two items agreeing
    on the shape of each field, [sample(batch_size)] with [batch_size ≥ 1]
    returns on every sequence of indices the generator can draw; it returns
    [k] tensors, the one for field [f] being the conversion of the stack of
    field [f] of the drawn items, in draw order. *)
Theorem sample_stacks_fields_of_drawn_items self (k batch_size : nat) draws :
  1 ≤ batch_size →
  randint_ok (ReplayBuffer.size self) batch_size draws = true →
  Forall (λ item, length item = k) (ReplayBuffer.buffer self) →
  (∀ x y f a b, x ∈ ReplayBuffer.buffer self → y ∈ ReplayBuffer.buffer self →
     x !! f = Some a → y !! f = Some b → shape a = shape b) →
  ∃ batch result,
    Forall2 (λ i item, ReplayBuffer.buffer self !! i = Some item) draws batch ∧
    ReplayBuffer.sample shape FloatTensor draws batch_size self = Returns result ∧
    length result = k ∧
    ∀ f, f < k →
      ∃ col, result !! f = Some (FloatTensor col) ∧
             length col = batch_size ∧
             ∀ b item, batch !! b = Some item → col !! b = item !! f.
Proof.
  intros Hbatch Hok Hk Hshape.
  unfold randint_ok in Hok. apply andb_prop in Hok as [Hlen Hall].
  apply Nat.eqb_eq in Hlen. unfold ReplayBuffer.size in Hall.
  destruct (lookup_draws _ _ Hall) as (batch & Hmap & Hdrawn).
  pose proof (Forall2_length _ _ _ Hdrawn) as Hblen.
  assert (batch ≠ []) as Hne.
  { intros ->. simpl in Hblen. lia. }
  assert (Forall (λ item, item ∈ ReplayBuffer.buffer self) batch) as Hin.
  { apply Forall_lookup. intros b item Hb.
    destruct (Forall2_lookup_r _ _ _ _ _ Hdrawn Hb) as (i & _ & Hi).
    apply list_elem_of_lookup. by exists i. }
  assert (Forall (λ item, length item = k) batch) as Hbk.
  { eapply Forall_impl; [exact Hin|]. simpl. intros item Hitem.
    by apply (proj1 (Forall_forall _ _) Hk). }
  destruct (zip_star_columns batch k Hne Hbk) as [Hcols Hcol].
  assert (map_exn (np_stack shape) (zip_star batch) = inr (zip_star batch)) as Hstack.
  { apply map_exn_fixed, Forall_lookup. intros f col Hf.
    destruct (Hcol f col Hf) as [Hclen Hent].
    apply np_stack_same_shape.
    - intros ->. simpl in Hclen. destruct batch; [done|discriminate].
    - intros a b Ha Hb.
      apply list_elem_of_lookup in Ha as [ia Ha].
      apply list_elem_of_lookup in Hb as [ib Hb].
      destruct (lookup_lt_is_Some_2 batch ia) as [x Hx].
      { apply lookup_lt_Some in Ha. lia. }
      destruct (lookup_lt_is_Some_2 batch ib) as [y Hy].
      { apply lookup_lt_Some in Hb. lia. }
      rewrite (Hent ia x Hx) in Ha. rewrite (Hent ib y Hy) in Hb.
      eapply (Hshape x y f a b); try done.
      + by apply (Forall_lookup_1 _ _ _ _ Hin Hx).
      + by apply (Forall_lookup_1 _ _ _ _ Hin Hy). }
  exists batch, (map FloatTensor (zip_star batch)).
  split; [done|]. split.
  { unfold ReplayBuffer.sample, randint_ok.
    destruct (decide (ReplayBuffer.size self = 0)) as [Hz|_].
    - exfalso. destruct draws as [|i draws]; [simpl in Hlen; lia|].
      simpl in Hall. apply andb_prop in Hall as [Hi _]. apply Nat.ltb_lt in Hi.
      unfold ReplayBuffer.size in Hz. lia.
    - unfold ReplayBuffer.size. rewrite Hall, (proj2 (Nat.eqb_eq _ _) Hlen). simpl.
      by rewrite Hmap, Hstack. }
  split; [by rewrite length_map|].
  intros f Hf. destruct (lookup_lt_is_Some_2 (zip_star batch) f) as [col Hcolf]; [lia|].
  destruct (Hcol f col Hcolf) as [Hclen Hent].
  exists col. split; [by rewrite lookup_map, Hcolf|]. split; [lia|done].
Qed.

(** X5: [sample(0)] on a buffer that is not empty returns the empty tuple,
    however many fields the stored items have: [zip] of no item yields no
    field. *)
Theorem sample_zero_returns_empty_tuple (cap : capacity_t) (item : list F)
    (rest : list (list F)) (off : nat) draws :
  ReplayBuffer.sample shape FloatTensor [] 0 (ReplayBuffer.mk cap (item :: rest) off)
  = Returns [] ∧
  (ReplayBuffer.sample shape FloatTensor draws 0 (ReplayBuffer.mk cap (item :: rest) off)
   = Returns [] ∨
   ReplayBuffer.sample shape FloatTensor draws 0 (ReplayBuffer.mk cap (item :: rest) off)
   = BadDraw).
Proof.
  split; [reflexivity|].
  unfold ReplayBuffer.sample, ReplayBuffer.size, randint_ok. simpl.
  destruct draws as [|i draws]; [by left|by right].
Qed.

End ReplayBufferSampleSpec.

(** X4 on a buffer of three items of two scalar fields, drawing slots 2, 0. *)
Lemma sample_stacks_fields_of_drawn_items_witness :
  ∃ batch result,
    Forall2 (λ i item, [[1; 2]; [3; 4]; [5; 6]] !! i = Some item) [2; 0] batch ∧
    ReplayBuffer.sample (λ _ : nat, []) (λ col : list nat, col) [2; 0] 2
      (ReplayBuffer.mk (Finite 3) [[1; 2]; [3; 4]; [5; 6]] 0) = Returns result ∧
    result = [[5; 1]; [6; 2]].
Proof.
  destruct (sample_stacks_fields_of_drawn_items (λ _ : nat, []) (λ col : list nat, col)
              (ReplayBuffer.mk (Finite 3) [[1; 2]; [3; 4]; [5; 6]] 0) 2 2 [2; 0])
    as (batch & result & Hbatch & Hret & _).
  - lia.
  - reflexivity.
  - repeat constructor.
  - reflexivity.
  - exists batch, result. split; [exact Hbatch|]. split; [exact Hret|].
    vm_compute in Hret. by injection Hret as <-.
Defined.

(** ** TrajectoryReplayBuffer: what [push] and the inherited [extend] do *)

Lemma sum_list_insert (l : list nat) (i x old : nat) :
  l !! i = Some old → sum_list (<[i := x]> l) + old = sum_list l + x.
Proof.
  revert i. induction l as [|y l IH]; intros [|i] Hi; simpl in *; try done.
  - injection Hi as ->. lia.
  - specialize (IH i Hi). lia.
Qed.

Section TrajectoryPushFacts.
Context {row : Type}.
Implicit Types (self : TrajectoryReplayBuffer.t row) (args : list (list row))
  (pushes : list (list (list row))).

Lemma trb_after_pushes_snoc pushes args self :
  TrajectoryReplayBuffer.after_pushes (pushes ++ [args]) self
  = state_of (TrajectoryReplayBuffer.push args
                (TrajectoryReplayBuffer.after_pushes pushes self)).
Proof. unfold TrajectoryReplayBuffer.after_pushes. by rewrite foldl_app. Qed.

(** X6: a [TrajectoryReplayBuffer] filled by [push] alone never overwrites:
    in every state reached from the empty buffer by [push] calls, a [push]
    that does not fit ([size + length > capacity]) raises [IndexError] and
    leaves the buffer as it was. *)
Theorem push_that_does_not_fit_raises (capacity : option nat) pushes args :
  le_capacity
    (TrajectoryReplayBuffer.size
       (TrajectoryReplayBuffer.after_pushes pushes (TrajectoryReplayBuffer.empty capacity))
     + trajectory_length args)
    (TrajectoryReplayBuffer.capacity
       (TrajectoryReplayBuffer.after_pushes pushes (TrajectoryReplayBuffer.empty capacity)))
  = false →
  TrajectoryReplayBuffer.push args
    (TrajectoryReplayBuffer.after_pushes pushes (TrajectoryReplayBuffer.empty capacity))
  = Raised IndexError
      (TrajectoryReplayBuffer.after_pushes pushes (TrajectoryReplayBuffer.empty capacity)).
Proof.
  intros Hle. apply trb_push_at_end; [|done].
  destruct (trb_after_pushes_cursor_at_end pushes
              (TrajectoryReplayBuffer.empty (row := row) capacity)) as [_ [Hoff _]];
    [|done].
  split; [done|]. by destruct capacity as [[|c]|]; cbv; try lia.
Qed.

Lemma trb_after_pushes_shape (capacity : option nat) pushes :
  let s := TrajectoryReplayBuffer.after_pushes pushes
             (TrajectoryReplayBuffer.empty capacity) in
  TrajectoryReplayBuffer.buffer s `sublist_of` pushes ∧
  Forall (λ slot, slot ≠ []) (TrajectoryReplayBuffer.buffer s) ∧
  TrajectoryReplayBuffer.lengths s
  = map trajectory_length (TrajectoryReplayBuffer.buffer s) ∧
  TrajectoryReplayBuffer.offset s = length (TrajectoryReplayBuffer.buffer s).
Proof.
  induction pushes as [|args pushes IH] using rev_ind.
  - simpl. repeat split; constructor.
  - simpl in *. rewrite trb_after_pushes_snoc.
    set (s := TrajectoryReplayBuffer.after_pushes pushes
                (TrajectoryReplayBuffer.empty capacity)) in *.
    destruct IH as (Hsub & Hne & Hlen & Hoff).
    destruct (decide (args = [])) as [->|Hargs].
    { simpl. repeat split; try done. by apply sublist_inserts_r. }
    destruct (le_capacity (TrajectoryReplayBuffer.size s + trajectory_length args)
                (TrajectoryReplayBuffer.capacity s)) eqn:Hle.
    + rewrite trb_push_append by done. simpl.
      unfold TrajectoryReplayBuffer.buffer, TrajectoryReplayBuffer.offset,
        ReplayBuffer.offset in *. simpl. repeat split.
      * apply sublist_app; [done|]. reflexivity.
      * apply Forall_app. split; [done|]. by constructor.
      * by rewrite map_app, Hlen.
      * rewrite length_app. simpl. lia.
    + rewrite trb_push_at_end by done. simpl. repeat split; try done.
      by apply sublist_inserts_r.
Qed.

(** X7: after any sequence of [push] calls on an empty
    [TrajectoryReplayBuffer], the slots are some of the pushed argument
    tuples, in push order (a subsequence: the pushes that fitted); none is
    an empty tuple; [lengths] holds [len(args[0])] of each slot; and the
    offset equals the number of slots. *)
Theorem pushed_trajectories_are_kept_in_order (capacity : option nat) pushes :
  TrajectoryReplayBuffer.buffer
    (TrajectoryReplayBuffer.after_pushes pushes (TrajectoryReplayBuffer.empty capacity))
  `sublist_of` pushes ∧
  Forall (λ slot, slot ≠ [])
    (TrajectoryReplayBuffer.buffer
       (TrajectoryReplayBuffer.after_pushes pushes
          (TrajectoryReplayBuffer.empty capacity))) ∧
  TrajectoryReplayBuffer.lengths
    (TrajectoryReplayBuffer.after_pushes pushes (TrajectoryReplayBuffer.empty capacity))
  = map trajectory_length
      (TrajectoryReplayBuffer.buffer
         (TrajectoryReplayBuffer.after_pushes pushes
            (TrajectoryReplayBuffer.empty capacity))) ∧
  TrajectoryReplayBuffer.offset
    (TrajectoryReplayBuffer.after_pushes pushes (TrajectoryReplayBuffer.empty capacity))
  = length
      (TrajectoryReplayBuffer.buffer
         (TrajectoryReplayBuffer.after_pushes pushes
            (TrajectoryReplayBuffer.empty capacity))).
Proof. apply trb_after_pushes_shape. Qed.

(** X8: pushing trajectories of the data model (six arrays of one length)
    into an empty [TrajectoryReplayBuffer] keeps the data model: every slot
    holds such a trajectory and [lengths] lists their lengths slot by slot. *)
Theorem pushes_store_trajectories (capacity : option nat) pushes :
  Forall (λ args, ∃ L, trajectory_slot args L) pushes →
  stores_trajectories
    (TrajectoryReplayBuffer.after_pushes pushes (TrajectoryReplayBuffer.empty capacity)).
Proof.
  intros Hall.
  destruct (trb_after_pushes_shape capacity pushes) as (Hsub & _ & Hlen & _).
  unfold stores_trajectories. simpl in *. rewrite Hlen.
  apply sublist_subseteq in Hsub.
  assert (Forall (λ args, ∃ L, trajectory_slot args L)
            (TrajectoryReplayBuffer.buffer
               (TrajectoryReplayBuffer.after_pushes pushes
                  (TrajectoryReplayBuffer.empty capacity)))) as Hslots.
  { apply Forall_forall. intros slot Hslot.
    apply (proj1 (Forall_forall _ _) Hall). by apply Hsub. }
  clear Hsub Hlen.
  induction Hslots as [|slot slots [L HL] _ IH]; [constructor|].
  simpl. constructor; [|exact IH].
  destruct (trajectory_slot_inv slot L HL) as (o & a & r & n & d & h & -> & Ho).
  simpl. by rewrite Ho.
Qed.

(** X9: in a state whose cursor points at an existing slot with a length
    entry, a [push] that does not fit replaces that slot and its length
    entry, moves the cursor to the next slot modulo the slot count, and
    changes [size] by the difference of the two lengths. *)
Theorem push_overwrites_slot_at_cursor self args (o old : nat) :
  args ≠ [] →
  TrajectoryReplayBuffer.offset self = o →
  o < length (TrajectoryReplayBuffer.buffer self) →
  TrajectoryReplayBuffer.lengths self !! o = Some old →
  le_capacity (TrajectoryReplayBuffer.size self + trajectory_length args)
              (TrajectoryReplayBuffer.capacity self) = false →
  ∃ s',
    TrajectoryReplayBuffer.push args self = Ok tt s' ∧
    TrajectoryReplayBuffer.buffer s' = <[o := args]> (TrajectoryReplayBuffer.buffer self) ∧
    TrajectoryReplayBuffer.lengths s'
    = <[o := trajectory_length args]> (TrajectoryReplayBuffer.lengths self) ∧
    TrajectoryReplayBuffer.offset s'
    = (o + 1) `mod` length (TrajectoryReplayBuffer.buffer self) ∧
    TrajectoryReplayBuffer.size s' + old
    = TrajectoryReplayBuffer.size self + trajectory_length args.
Proof.
  destruct args as [|first rest]; [done|]. intros _.
  destruct self as [[cap buf off] lens].
  unfold TrajectoryReplayBuffer.size, TrajectoryReplayBuffer.capacity,
    TrajectoryReplayBuffer.buffer, TrajectoryReplayBuffer.offset,
    ReplayBuffer.offset. simpl.
  intros -> Ho Hold Hle.
  pose proof (lookup_lt_Some _ _ _ Hold) as Hol.
  unfold TrajectoryReplayBuffer.push. run_M.
  unfold TrajectoryReplayBuffer.size, TrajectoryReplayBuffer.capacity. simpl.
  rewrite Hle.
  unfold TrajectoryReplayBuffer.inherited, ReplayBuffer.buffer_setitem,
    TrajectoryReplayBuffer.lengths_setitem, TrajectoryReplayBuffer.py_mod,
    TrajectoryReplayBuffer.offset, TrajectoryReplayBuffer.buffer,
    ReplayBuffer.offset. simpl.
  destruct (decide (o < length buf)); [|lia]. simpl.
  destruct (decide (o < length lens)); [|lia]. simpl.
  rewrite length_insert.
  destruct (decide (length buf = 0)); [lia|]. simpl.
  eexists. split; [reflexivity|]. simpl. repeat split.
  by apply sum_list_insert.
Qed.

(** X10: when the cursor points at an existing slot that has no length
    entry, a [push] that does not fit overwrites the slot and then raises
    [IndexError] at [self.lengths[self.offset] = length]: the slot stays
    overwritten while [lengths] and the cursor are unchanged. *)
Theorem push_can_fail_after_overwriting self args (o : nat) :
  args ≠ [] →
  TrajectoryReplayBuffer.offset self = o →
  o < length (TrajectoryReplayBuffer.buffer self) →
  length (TrajectoryReplayBuffer.lengths self) ≤ o →
  le_capacity (TrajectoryReplayBuffer.size self + trajectory_length args)
              (TrajectoryReplayBuffer.capacity self) = false →
  TrajectoryReplayBuffer.push args self
  = Raised IndexError
      (TrajectoryReplayBuffer.mk
         (ReplayBuffer.mk (TrajectoryReplayBuffer.capacity self)
            (<[o := args]> (TrajectoryReplayBuffer.buffer self)) o)
         (TrajectoryReplayBuffer.lengths self)).
Proof.
  destruct args as [|first rest]; [done|]. intros _.
  destruct self as [[cap buf off] lens].
  unfold TrajectoryReplayBuffer.size, TrajectoryReplayBuffer.capacity,
    TrajectoryReplayBuffer.buffer, TrajectoryReplayBuffer.offset,
    ReplayBuffer.offset. simpl.
  intros -> Ho Hol Hle.
  unfold TrajectoryReplayBuffer.push. run_M.
  unfold TrajectoryReplayBuffer.size, TrajectoryReplayBuffer.capacity. simpl.
  rewrite Hle.
  unfold TrajectoryReplayBuffer.inherited, ReplayBuffer.buffer_setitem,
    TrajectoryReplayBuffer.lengths_setitem,
    TrajectoryReplayBuffer.offset, ReplayBuffer.offset. simpl.
  destruct (decide (o < length buf)); [|lia]. simpl.
  destruct (decide (o < length lens)); [lia|]. done.
Qed.

(** X11: the [extend] a [TrajectoryReplayBuffer] inherits never changes
    [lengths], hence never changes [size]; so on a buffer whose size is
    below its finite capacity it appends every item, and the number of
    slots grows past any bound. *)
Theorem inherited_extend_keeps_lengths self (items : list (list (list row))) :
  TrajectoryReplayBuffer.lengths (state_of (TrajectoryReplayBuffer.extend items self))
  = TrajectoryReplayBuffer.lengths self ∧
  ∀ c, TrajectoryReplayBuffer.capacity self = Finite c →
       TrajectoryReplayBuffer.size self < c →
       is_ok (TrajectoryReplayBuffer.extend items self) = true ∧
       TrajectoryReplayBuffer.buffer (state_of (TrajectoryReplayBuffer.extend items self))
       = TrajectoryReplayBuffer.buffer self ++ items.
Proof.
  unfold TrajectoryReplayBuffer.extend.
  match goal with |- context [for_each _ ?b] => set (body := b) end.
  assert (∀ item s, TrajectoryReplayBuffer.lengths (state_of (body item s))
                    = TrajectoryReplayBuffer.lengths s) as Hlens.
  { intros item [[cap buf off] lens]. subst body. run_M.
    unfold TrajectoryReplayBuffer.size, TrajectoryReplayBuffer.capacity,
      TrajectoryReplayBuffer.inherited, ReplayBuffer.buffer_setitem,
      TrajectoryReplayBuffer.offset, ReplayBuffer.offset,
      ReplayBuffer.offset_imod. simpl. run_M.
    destruct (lt_capacity (sum_list lens) cap); simpl.
    + destruct cap as [c|]; simpl; [|done]. by destruct (decide (c = 0)).
    + destruct (decide (off < length buf)); simpl; [|done].
      destruct cap as [c|]; simpl; [|done]. by destruct (decide (c = 0)). }
  assert (∀ item s c,
            TrajectoryReplayBuffer.capacity s = Finite c →
            TrajectoryReplayBuffer.size s < c →
            ∃ o, body item s
                 = Ok tt (TrajectoryReplayBuffer.mk
                            (ReplayBuffer.mk (Finite c)
                               (TrajectoryReplayBuffer.buffer s ++ [item]) o)
                            (TrajectoryReplayBuffer.lengths s))) as Happ.
  { intros item [[cap buf off] lens] c.
    unfold TrajectoryReplayBuffer.capacity, TrajectoryReplayBuffer.size. simpl.
    intros -> Hsz. subst body. run_M.
    unfold TrajectoryReplayBuffer.size, TrajectoryReplayBuffer.capacity,
      TrajectoryReplayBuffer.inherited, ReplayBuffer.offset_imod. simpl. run_M.
    rewrite (proj2 (Nat.ltb_lt _ _) Hsz). simpl.
    destruct (decide (c = 0)); [lia|]. simpl. eauto. }
  clearbody body. split.
  - revert self. induction items as [|item items IH]; intros self; [done|].
    change (item :: items) with ([item] ++ items).
    rewrite for_each_app, for_each_singleton.
    specialize (Hlens item self).
    destruct (body item self) as [[] s'|e s']; simpl in *; [|done].
    by rewrite IH.
  - intros c. revert self. induction items as [|item items IH]; intros self Hcap Hsz.
    + simpl. by rewrite app_nil_r.
    + change (item :: items) with ([item] ++ items).
      rewrite for_each_app, for_each_singleton.
      destruct (Happ item self c Hcap Hsz) as [o ->].
      destruct (IH (TrajectoryReplayBuffer.mk
                      (ReplayBuffer.mk (Finite c)
                         (TrajectoryReplayBuffer.buffer self ++ [item]) o)
                      (TrajectoryReplayBuffer.lengths self))) as [Hok Hbuf];
        [done|done|].
      split; [exact Hok|]. rewrite Hbuf.
      unfold TrajectoryReplayBuffer.buffer. simpl. by rewrite <- app_assoc.
Qed.

End TrajectoryPushFacts.

(** X6 at capacity 10, after two trajectories of 4 steps, for one of 5. *)
Lemma push_that_does_not_fit_raises_witness :
  TrajectoryReplayBuffer.push (uniform_trajectory 5 0)
    (TrajectoryReplayBuffer.after_pushes
       [uniform_trajectory 4 0; uniform_trajectory 4 0]
       (TrajectoryReplayBuffer.empty (Some 10)))
  = Raised IndexError
      (TrajectoryReplayBuffer.after_pushes
         [uniform_trajectory 4 0; uniform_trajectory 4 0]
         (TrajectoryReplayBuffer.empty (Some 10))).
Proof.
  apply (push_that_does_not_fit_raises (Some 10)
           [uniform_trajectory 4 0; uniform_trajectory 4 0] (uniform_trajectory 5 0)).
  reflexivity.
Defined.

(** X8 for trajectories of 4, 5 and 3 steps at capacity 10. *)
Lemma pushes_store_trajectories_witness :
  stores_trajectories
    (TrajectoryReplayBuffer.after_pushes
       [uniform_trajectory 4 0; uniform_trajectory 5 0; uniform_trajectory 3 0]
       (TrajectoryReplayBuffer.empty (Some 10))).
Proof.
  apply (pushes_store_trajectories (Some 10)).
  repeat constructor.
  - exists 4. split; [reflexivity|repeat constructor].
  - exists 5. split; [reflexivity|repeat constructor].
  - exists 3. split; [reflexivity|repeat constructor].
Defined.

(** X9 on [extended_buffer 8] (cursor 0, lengths [4, 4]) for a trajectory of
    7 steps: the size becomes 11. *)
Lemma push_overwrites_slot_at_cursor_witness :
  ∃ s',
    TrajectoryReplayBuffer.push (uniform_trajectory 7 0) (extended_buffer 8) = Ok tt s' ∧
    TrajectoryReplayBuffer.lengths s' = [7; 4] ∧
    TrajectoryReplayBuffer.offset s' = 1 ∧
    TrajectoryReplayBuffer.size s' + 4 = 8 + 7.
Proof.
  destruct (push_overwrites_slot_at_cursor (extended_buffer 8)
              (uniform_trajectory 7 0) 0 4)
    as (s' & Hrun & _ & Hlens & Hoff & Hsize).
  - discriminate.
  - reflexivity.
  - vm_compute. lia.
  - reflexivity.
  - reflexivity.
  - exists s'. split; [exact Hrun|]. split; [exact Hlens|].
    split; [exact Hoff|exact Hsize].
Defined.

(** X10 on [extended_buffer 10] (cursor 2, twelve slots, two length
    entries) for a trajectory of 7 steps. *)
Lemma push_can_fail_after_overwriting_witness :
  TrajectoryReplayBuffer.push (uniform_trajectory 7 0) (extended_buffer 10)
  = Raised IndexError
      (TrajectoryReplayBuffer.mk
         (ReplayBuffer.mk (Finite 10)
            (<[2 := uniform_trajectory 7 0]>
               (TrajectoryReplayBuffer.buffer (extended_buffer 10))) 2)
         [4; 4]).
Proof.
  apply (push_can_fail_after_overwriting (extended_buffer 10)
           (uniform_trajectory 7 0) 2).
  - discriminate.
  - reflexivity.
  - vm_compute. lia.
  - vm_compute. lia.
  - reflexivity.
Defined.

(** X11 on an empty trajectory buffer of capacity 2: five items extend it
    to five slots, with no length entry. *)
Lemma inherited_extend_keeps_lengths_witness :
  TrajectoryReplayBuffer.lengths
    (state_of (TrajectoryReplayBuffer.extend (replicate 5 [[0]])
                 (TrajectoryReplayBuffer.empty (Some 2)))) = [] ∧
  length (TrajectoryReplayBuffer.buffer
            (state_of (TrajectoryReplayBuffer.extend (replicate 5 [[0]])
                         (TrajectoryReplayBuffer.empty (Some 2))))) = 5.
Proof.
  destruct (inherited_extend_keeps_lengths
              (TrajectoryReplayBuffer.empty (Some 2)) (replicate 5 [[0]]))
    as [Hlens Hgrow].
  split; [exact Hlens|].
  destruct (Hgrow 2 eq_refl) as [_ Hbuf]; [cbv; lia|].
  rewrite Hbuf. reflexivity.
Defined.

(** ** TrajectoryReplayBuffer: when [sample] returns, loops or raises *)

Lemma trajectory_slot_hidden {row : Type} (o a r n d h : list row) (L : nat) :
  trajectory_slot [o; a; r; n; d; h] L → length o = L ∧ length h = L.
Proof.
  intros [_ Hall]. split.
  - by apply (Forall_lookup_1 _ _ 0 o Hall).
  - by apply (Forall_lookup_1 _ _ 5 h Hall).
Qed.

Section TrajectorySampleOutcomes.
Context {row trow hid hiddens_t : Type}.
Variable float32 : row → trow.
Variable unsqueeze0 : row → hid.
Variable LSTMHidden_cat : list hid → hiddens_t.
Implicit Types (self : TrajectoryReplayBuffer.t row) (tape : list nat).

Lemma drawn_batch_stacks self step_size (draws : list (nat * nat))
    (ds : list (list (list row) * hid)) :
  ds ≠ [] →
  Forall2 (drawn_at unsqueeze0 self step_size) draws ds →
  length (zip_star (map fst ds)) = 5 ∧
  map_exn (np_stack (λ a : list row, [length a])) (zip_star (map fst ds))
  = inr (zip_star (map fst ds)).
Proof.
  intros Hne Hdraws.
  assert (map fst ds ≠ []) as Hbne by (by destruct ds).
  assert (Forall (λ x, length x = 5) (map fst ds)) as Hfive.
  { apply Forall_lookup. intros b x Hb.
    rewrite lookup_map in Hb. apply fmap_Some in Hb as (dd & Hdd & ->).
    destruct (Forall2_lookup_r _ _ _ _ _ Hdraws Hdd) as ([index offset] & _ & Hd).
    apply (drawn_at_field unsqueeze0 _ _ _ _ _ 0 Hd). }
  destruct (zip_star_columns (map fst ds) 5 Hbne Hfive) as [Hcols Hcol].
  split; [done|].
  apply map_exn_fixed, Forall_lookup. intros k col Hk.
  destruct (Hcol k col Hk) as [Hclen Hent].
  assert (k < 5) as Hk5. { rewrite <- Hcols. by eapply lookup_lt_Some. }
  assert (Forall (λ sub, length sub = step_size) col) as Hsubs.
  { apply Forall_lookup. intros b sub Hb.
    destruct (lookup_lt_is_Some_2 ds b) as [dd Hdd].
    { apply lookup_lt_Some in Hb. rewrite Hclen, length_map in Hb. done. }
    destruct (Forall2_lookup_r _ _ _ _ _ Hdraws Hdd) as ([index offset] & _ & Hd).
    destruct (drawn_at_field unsqueeze0 _ _ _ _ _ k Hd) as [_ Hfield].
    destruct (Hfield Hk5) as (slot & a & L & _ & _ & HaL & Hge & Hoff & Hx).
    assert (map fst ds !! b = Some (fst dd)) as Hbd.
    { rewrite lookup_map. apply fmap_Some. exists dd. split; [exact Hdd|done]. }
    rewrite (Hent b (fst dd) Hbd), Hx in Hb. injection Hb as <-.
    apply length_slice. lia. }
  apply np_stack_same_shape.
  - intros ->. simpl in Hclen. destruct ds; [done|discriminate].
  - intros a b Ha Hb.
    by rewrite (proj1 (Forall_forall _ _) Hsubs a Ha),
               (proj1 (Forall_forall _ _) Hsubs b Hb).
Qed.

Lemma sample_returns_after_draws self tape batch_size step_size ds :
  stores_trajectories self →
  1 ≤ batch_size →
  TrajectoryReplayBuffer.draw_batch unsqueeze0 self step_size batch_size tape
  = Returns ds →
  ∃ result,
    TrajectoryReplayBuffer.sample float32 unsqueeze0 LSTMHidden_cat
      tape batch_size step_size self = Returns result.
Proof.
  intros Hst Hbatch Hdb.
  destruct (draw_batch_returns unsqueeze0 _ _ _ _ _ Hst Hdb) as [Hlen [draws Hdraws]].
  assert (ds ≠ []) as Hne. { intros ->. simpl in Hlen. lia. }
  destruct (drawn_batch_stacks _ _ _ _ Hne Hdraws) as [Hfive Hstack].
  unfold TrajectoryReplayBuffer.sample. rewrite Hdb, Hstack.
  destruct (zip_star (map fst ds)) as [|o [|a [|r [|n [|d [|]]]]]];
    try discriminate.
  simpl. eauto.
Qed.

Lemma retry_loop_hit self step_size (i L : nat) tape :
  stores_trajectories self →
  TrajectoryReplayBuffer.lengths self !! i = Some L →
  1 ≤ step_size → step_size ≤ L →
  ∃ d, TrajectoryReplayBuffer.retry_loop unsqueeze0 self step_size (i :: 0 :: tape)
       = Returns (d, tape).
Proof.
  intros Hst HL Hstep Hge. simpl.
  destruct (decide (sum_list (TrajectoryReplayBuffer.lengths self) = 0)) as [Hz|_].
  { pose proof (sum_list_with_in L id (TrajectoryReplayBuffer.lengths self)) as Hin.
    simpl in Hin. rewrite Hz in Hin.
    assert (L ≤ 0); [|lia]. apply Hin. apply list_elem_of_lookup. by exists i. }
  unfold TrajectoryReplayBuffer.choice_ok. rewrite HL.
  rewrite (proj2 (Nat.ltb_lt 0 L)) by lia. simpl.
  destruct (Forall2_lookup_r _ _ _ _ _ Hst HL) as (slot & Hslot & Hts).
  rewrite Hslot.
  destruct (trajectory_slot_inv slot L Hts) as (o & a & r & n & dn & h & -> & _).
  destruct (trajectory_slot_hidden _ _ _ _ _ _ _ Hts) as [Ho Hh].
  destruct (decide (step_size ≤ length o)); [|lia].
  destruct (decide (0 ≤ length o - step_size)); [|lia].
  destruct (lookup_lt_is_Some_2 h 0) as [x ->]; [lia|]. eauto.
Qed.

(** X13: if a buffer of the data model stores a trajectory of length at
    least [step_size ≥ 1], then [sample(batch_size, step_size)] with
    [batch_size ≥ 1] returns when the generator draws that trajectory and
    the start offset 0 each time: with C7, the call can return exactly when
    a long enough trajectory is stored. *)
Theorem sample_returns_with_a_long_trajectory self batch_size step_size (i L : nat) :
  stores_trajectories self →
  TrajectoryReplayBuffer.lengths self !! i = Some L →
  1 ≤ step_size →
  step_size ≤ L →
  1 ≤ batch_size →
  ∃ result,
    TrajectoryReplayBuffer.sample float32 unsqueeze0 LSTMHidden_cat
      (concat (replicate batch_size [i; 0])) batch_size step_size self
    = Returns result.
Proof.
  intros Hst HL Hstep Hge Hbatch.
  assert (∀ n tape, ∃ ds,
            TrajectoryReplayBuffer.draw_batch unsqueeze0 self step_size n
              (concat (replicate n [i; 0]) ++ tape) = Returns ds) as Hdraw.
  { induction n as [|n IH]; intros tape; [by exists []|].
    simpl.
    destruct (retry_loop_hit self step_size i L
                (concat (replicate n [i; 0]) ++ tape) Hst HL Hstep Hge) as [d Hd].
    simpl in Hd. rewrite Hd. destruct (IH tape) as [ds ->]. eauto. }
  destruct (Hdraw batch_size []) as [ds Hds]. rewrite app_nil_r in Hds.
  by eapply sample_returns_after_draws.
Qed.

(** X14: with [step_size = 0] the call can raise: the start offset
    [len(observation)] is one [random.randint] can return for an empty
    window, and [hidden[offset]] then raises [IndexError]. *)
Theorem sample_with_empty_window_can_raise self batch_size (i L : nat) tape :
  stores_trajectories self →
  TrajectoryReplayBuffer.lengths self !! i = Some L →
  0 < L →
  TrajectoryReplayBuffer.sample float32 unsqueeze0 LSTMHidden_cat
    (i :: L :: tape) (S batch_size) 0 self
  = Raises IndexError.
Proof.
  intros Hst HL Hpos. unfold TrajectoryReplayBuffer.sample. simpl.
  destruct (decide (sum_list (TrajectoryReplayBuffer.lengths self) = 0)) as [Hz|_].
  { pose proof (sum_list_with_in L id (TrajectoryReplayBuffer.lengths self)) as Hin.
    simpl in Hin. rewrite Hz in Hin.
    assert (L ≤ 0); [|lia]. apply Hin. apply list_elem_of_lookup. by exists i. }
  unfold TrajectoryReplayBuffer.choice_ok. rewrite HL.
  rewrite (proj2 (Nat.ltb_lt 0 L)) by lia. simpl.
  destruct (Forall2_lookup_r _ _ _ _ _ Hst HL) as (slot & Hslot & Hts).
  rewrite Hslot.
  destruct (trajectory_slot_inv slot L Hts) as (o & a & r & n & dn & h & -> & _).
  destruct (trajectory_slot_hidden _ _ _ _ _ _ _ Hts) as [Ho Hh].
  destruct (decide (0 ≤ length o)); [|lia].
  destruct (decide (L ≤ length o - 0)); [|lia].
  rewrite (lookup_ge_None_2 h L) by lia. done.
Qed.

End TrajectorySampleOutcomes.

(** X13 on [example_buffer]: slot 0 holds 3 steps, windows of 2 steps. *)
Lemma sample_returns_with_a_long_trajectory_witness :
  ∃ result,
    TrajectoryReplayBuffer.sample (λ x : nat, x) (λ x : nat, x) (λ hs : list nat, hs)
      [0; 0; 0; 0] 2 2 example_buffer = Returns result.
Proof.
  apply (sample_returns_with_a_long_trajectory (λ x : nat, x) (λ x : nat, x)
           (λ hs : list nat, hs) example_buffer 2 2 0 3).
  - repeat constructor.
  - reflexivity.
  - lia.
  - lia.
  - lia.
Defined.

(** X14 on [example_buffer]: slot 0, start offset 3. *)
Lemma sample_with_empty_window_can_raise_witness :
  TrajectoryReplayBuffer.sample (λ x : nat, x) (λ x : nat, x) (λ hs : list nat, hs)
    [0; 3] 1 0 example_buffer = Raises IndexError.
Proof.
  apply (sample_with_empty_window_can_raise (λ x : nat, x) (λ x : nat, x)
           (λ hs : list nat, hs) example_buffer 0 0 3 []).
  - repeat constructor.
  - reflexivity.
  - lia.
Defined.

(** ** The training loop *)



Lemma stop_samplers_joined (i : nat) (alive : list bool) :
  joined (TrainLoop.stop_samplers i alive) = seq i (length alive).
Proof.
  revert i. induction alive as [|a alive IH]; intros i; [done|].
  simpl. unfold joined in *. rewrite omap_app. simpl. rewrite IH.
  by destruct a.
Qed.

Lemma stop_samplers_terminated (i k : nat) (alive : list bool) :
  k ∈ terminated (TrainLoop.stop_samplers i alive) ↔
  i ≤ k ∧ alive !! (k - i) = Some true.
Proof.
  revert i. induction alive as [|a alive IH]; intros i.
  - simpl. split; [by intros ?%elem_of_nil|by intros [_ ?]].
  - simpl. unfold terminated in *. rewrite omap_app, elem_of_app. simpl.
    rewrite IH. destruct a; simpl.
    + rewrite list_elem_of_singleton. split.
      * intros [->|[Hle Hk]]; [by rewrite Nat.sub_diag|].
        split; [lia|]. by replace (k - i) with (S (k - S i)) by lia.
      * intros [Hle Hk]. destruct (decide (k = i)) as [->|Hne]; [by left|].
        right. split; [lia|].
        by replace (k - i) with (S (k - S i)) in Hk by lia.
    + rewrite elem_of_nil. split.
      * intros [[]|[Hle Hk]].
        split; [lia|]. by replace (k - i) with (S (k - S i)) by lia.
      * intros [Hle Hk]. right.
        destruct (decide (k = i)) as [->|Hne].
        { rewrite Nat.sub_diag in Hk. discriminate. }
        split; [lia|].
        by replace (k - i) with (S (k - S i)) in Hk by lia.
Qed.

(** X17: however [train_loop] ends, [train] joins every sampler exactly
    once, in order, and terminates exactly those that answered
    [is_alive()]; it returns normally when [train_loop] completes or is
    stopped by [KeyboardInterrupt], and propagates any other exception. *)
Theorem train_stops_every_sampler (how : TrainLoop.loop_end) (alive : list bool) :
  joined (snd (TrainLoop.train_try how alive)) = seq 0 (length alive) ∧
  (∀ k, k ∈ terminated (snd (TrainLoop.train_try how alive)) ↔
        alive !! k = Some true) ∧
  (fst (TrainLoop.train_try how alive) = None ↔
   how = TrainLoop.Completed ∨ how = TrainLoop.KeyboardInterrupt) ∧
  (∀ e, fst (TrainLoop.train_try how alive) = Some e ↔
        how = TrainLoop.OtherException e).
Proof.
  simpl. split; [apply stop_samplers_joined|]. split.
  - intros k. rewrite stop_samplers_terminated, Nat.sub_0_r.
    split; [by intros [_ ?]|]. intros ?. split; [lia|done].
  - split.
    + destruct how; split; try done; auto; by intros [|].
    + intros e. destruct how; split; try done; by intros [= ->].
Qed.
